(** * fantasy-ai: the user ledger actions, the image schema and the utilities

    A shallow embedding of
      - [src/unnamed/part_001]  (the utility module: [handleError],
        [deepMergeObjects]),
      - [src/lib/database/models/image.model.ts]  ([ImageModel], [ImageSchema],
        [Image]),
      - [src/lib/actions/user.actions.ts]  ([createUser], [getUserById],
        [updateUser], [deleteUser], [updateCredits]),
    followed by the properties established about them. *)

From Stdlib Require Import ZArith Lia Ascii String.
From stdpp Require Import gmap strings list fin_maps pretty.

#[local] Set Warnings "-register-all".
#[local] Open Scope string_scope.

(* ===================================================================== *)
(** ** JavaScript values *)
(* ===================================================================== *)

Module Js.

(** Plain data values.  An object is its set of own enumerable string-keyed
    properties over [Object.prototype]; an array is the dense list of its
    elements; a string is the sequence of its code units (one [ascii] per
    unit).  Numbers are not inspected by the code below and are kept as
    integers. *)
Inductive JsValue : Type :=
| JsUndefined
| JsNull
| JsBool (b : bool)
| JsNumber (n : Z)
| JsString (s : string)
| JsArray (items : list JsValue)
| JsObject (props : gmap string JsValue).

(** [v && typeof v === "object"]: [null] is falsy, arrays are objects. *)
Definition isObject (v : JsValue) : bool :=
  match v with
  | JsObject _ | JsArray _ => true
  | _ => false
  end.

(** The properties [i], [i+1], ... of an array or string. *)
Fixpoint indexed (i : nat) (items : list JsValue) : gmap string JsValue :=
  match items with
  | [] => ∅
  | v :: rest => <[pretty i := v]> (indexed (S i) rest)
  end.

Fixpoint codeUnits (s : string) : list JsValue :=
  match s with
  | EmptyString => []
  | String c rest => JsString (String c EmptyString) :: codeUnits rest
  end.

(** Own enumerable properties: what [{ ...v }] copies and what [for (key in v)]
    visits under the [hasOwnProperty] filter. *)
Definition ownProps (v : JsValue) : gmap string JsValue :=
  match v with
  | JsObject props => props
  | JsArray items => indexed 0 items
  | JsString s => indexed 0 (codeUnits s)
  | _ => ∅
  end.


(** [for (key in items)] over an array: the body sees the indices in order. *)
Definition forInArray {St : Type} (body : string -> JsValue -> St -> St)
  : nat -> list JsValue -> St -> St :=
  fix loop (i : nat) (rest : list JsValue) (state : St) :=
    match rest with
    | [] => state
    | v1 :: rest' => loop (S i) rest' (body (pretty i) v1 state)
    end.

(** What a call of [deepMergeObjects] comes to.  [ReplacesPrototype]: an
    assignment [output.__proto__ = v] went through the setter inherited from
    [Object.prototype] with an object or [null], so that the object built
    (or one held inside it) no longer has [Object.prototype] as its
    prototype; such objects are not values of [JsValue]. *)
Inductive Merged : Type :=
| Returns (v : JsValue)
| ThrowsTypeError
| ReplacesPrototype.

(** The second operand of [deepMergeObjects]: a value, or one of the built-in
    prototype objects, which the code reaches by reading [obj2.__proto__].
    [BuiltinPrototype 0] is [Object.prototype]; [BuiltinPrototype 1] is the
    prototype of arrays, strings, numbers and booleans, whose own prototype
    is [Object.prototype]. *)
Inductive Operand : Type :=
| Value (v : JsValue)
| BuiltinPrototype (above : nat).

(** [obj2 === null || obj2 === undefined] *)
Definition nullishOperand (obj2 : Operand) : bool :=
  match obj2 with
  | Value JsNull | Value JsUndefined => true
  | _ => false
  end.

(** [{ ...obj2 }]: the built-in prototypes have no enumerable property. *)
Definition spreadOf (obj2 : Operand) : gmap string JsValue :=
  match obj2 with
  | Value v => ownProps v
  | BuiltinPrototype _ => ∅
  end.

Definition prototypeOf (v : JsValue) : option Operand :=
  match v with
  | JsObject _ => Some (BuiltinPrototype 0)
  | JsArray _ | JsString _ | JsNumber _ | JsBool _ => Some (BuiltinPrototype 1)
  | JsNull | JsUndefined => None
  end.

(** The object that [obj2[key] && typeof obj2[key] === "object"] finds, if
    any.  An own property comes first; of the inherited members only
    [__proto__] is an object (the others are functions and numbers), and
    [Object.prototype.__proto__] is [null]. *)
Definition objectAt (obj2 : Operand) (key : string) : option Operand :=
  match obj2 with
  | Value v =>
      match ownProps v !! key with
      | Some v2 => if isObject v2 then Some (Value v2) else None
      | None => if bool_decide (key = "__proto__") then prototypeOf v else None
      end
  | BuiltinPrototype above =>
      if bool_decide (key = "__proto__")
      then match above with
           | O => None
           | S above' => Some (BuiltinPrototype above')
           end
      else None
  end.

(** The state of the [for ... in] loop: the object built so far and whether
    a prototype has been replaced, or the loop left by a throw. *)
Inductive Loop : Type :=
| Running (output : gmap string JsValue) (reparented : bool)
| Aborted.

(** [output[key] = value].  When [output] has no own [__proto__], assigning
    that key calls the inherited setter: an object or [null] becomes the
    prototype, any other value is ignored, and no own property is made. *)
Definition assignTo (key : string) (value : JsValue)
           (output : gmap string JsValue) (reparented : bool) : Loop :=
  if bool_decide (key = "__proto__") && bool_decide (output !! key = None)
  then match value with
       | JsObject _ | JsArray _ | JsNull => Running output true
       | _ => Running output reparented
       end
  else Running (<[key := value]> output) reparented.

Definition finish (state : Loop) : Merged :=
  match state with
  | Aborted => ThrowsTypeError
  | Running output true => ReplacesPrototype
  | Running output false => Returns (JsObject output)
  end.

(** [deepMergeObjects] of the utility module.

    [output = { ...obj2 }], then every own key of [obj1] is assigned into
    [output]: the recursive merge when both sides hold an object, [obj1]'s
    value otherwise.  The filter [obj1.hasOwnProperty(key)] is a call of
    whatever [obj1.hasOwnProperty] is: an own property of that name is a
    plain value, and calling it throws a [TypeError].  The keys of an array
    or a string are indices. *)
Fixpoint deepMergeObjects (obj1 : JsValue) (obj2 : Operand) {struct obj1} : Merged :=
  if nullishOperand obj2 then Returns obj1 else
  let spread := spreadOf obj2 in
  let assign (key : string) (v1 : JsValue) (state : Loop) : Loop :=
    match state with
    | Aborted => Aborted
    | Running output reparented =>
        let assigned :=
          if isObject v1
          then match objectAt obj2 key with
               | Some inner => deepMergeObjects v1 inner
               | None => Returns v1
               end
          else Returns v1 in
        match assigned with
        | Returns value => assignTo key value output reparented
        | ThrowsTypeError => Aborted
        | ReplacesPrototype => Running output true
        end
    end in
  match obj1 with
  | JsObject props =>
      if bool_decide (props !! "hasOwnProperty" = None)
      then finish (map_fold assign (Running spread false) props)
      else ThrowsTypeError
  | JsArray items => finish (forInArray assign 0 items (Running spread false))
  | JsString s =>
      finish (map_fold (fun key v1 state =>
                          match state with
                          | Aborted => Aborted
                          | Running output reparented => assignTo key v1 output reparented
                          end)
                (Running spread false) (ownProps (JsString s)))
  | _ => Returns (JsObject spread)
  end.

(** What the loop assigns at [key] for [obj1]'s value [v1]. *)
Definition mergedAt (obj2 : Operand) (key : string) (v1 : JsValue) : Merged :=
  if isObject v1
  then match objectAt obj2 key with
       | Some inner => deepMergeObjects v1 inner
       | None => Returns v1
       end
  else Returns v1.

(** The body of the loop of [deepMergeObjects], for one key of [obj1]. *)
Definition assignStep (obj2 : Operand) (key : string) (v1 : JsValue) (state : Loop) : Loop :=
  match state with
  | Aborted => Aborted
  | Running output reparented =>
      match mergedAt obj2 key v1 with
      | Returns value => assignTo key value output reparented
      | ThrowsTypeError => Aborted
      | ReplacesPrototype => Running output true
      end
  end.

(** No own key named [hasOwnProperty] or [__proto__], at any depth. *)
Inductive OrdinaryKeys : JsValue -> Prop :=
| ordinary_leaf v : isObject v = false -> OrdinaryKeys v
| ordinary_array items :
    (forall i v, items !! i = Some v -> OrdinaryKeys v) ->
    OrdinaryKeys (JsArray items)
| ordinary_object props :
    props !! "hasOwnProperty" = None ->
    props !! "__proto__" = None ->
    (forall key v, props !! key = Some v -> OrdinaryKeys v) ->
    OrdinaryKeys (JsObject props).

(** *** [JSON.stringify] of a string *)

Definition dquote : ascii := ascii_of_nat 34.
Definition backslash : ascii := ascii_of_nat 92.

Definition hexDigit (n : nat) : ascii :=
  if (n <? 10)%nat then ascii_of_nat (48 + n) else ascii_of_nat (87 + n).

Definition escapeUnit (c : ascii) : string :=
  let n := nat_of_ascii c in
  if (n =? 34)%nat then String backslash (String dquote EmptyString)
  else if (n =? 92)%nat then String backslash (String backslash EmptyString)
  else if (n =? 8)%nat then String backslash "b"
  else if (n =? 9)%nat then String backslash "t"
  else if (n =? 10)%nat then String backslash "n"
  else if (n =? 12)%nat then String backslash "f"
  else if (n =? 13)%nat then String backslash "r"
  else if (n <? 32)%nat
       then String backslash
              ("u00" +:+ String (hexDigit (n / 16)) (String (hexDigit (n mod 16)) EmptyString))
  else String c EmptyString.

Fixpoint escapeUnits (s : string) : string :=
  match s with
  | EmptyString => EmptyString
  | String c rest => escapeUnit c +:+ escapeUnits rest
  end.

Definition JSON_stringify_string (s : string) : string :=
  String dquote (escapeUnits s +:+ String dquote EmptyString).

(** *** Thrown values and [handleError] *)

(** What a [catch (err)] clause can receive: an [Error] instance, of which
    only the message is read, or any other value. *)
Inductive Thrown : Type :=
| ErrorInstance (message : string)
| NonError (v : JsValue).

(** What [handleError] does: the lines written with [console.error], and
    either the error it throws or a normal return. *)
Record Handled : Type := mkHandled {
  logged : list string;
  rethrown : option Thrown
}.

(** [handleError] of the utility module: two guarded branches and no final
    [else]. *)
Definition handleError (error : Thrown) : Handled :=
  match error with
  | ErrorInstance message =>
      mkHandled [message] (Some (ErrorInstance ("Error: " +:+ message)))
  | NonError (JsString s) =>
      mkHandled [s]
        (Some (ErrorInstance ("Unknown error: " +:+ JSON_stringify_string s)))
  | NonError _ => mkHandled [] None
  end.

(* --------------------------------------------------------------------- *)
(** *** The other utilities *)
(* --------------------------------------------------------------------- *)



(** [v == null]. *)
Definition nullish (v : JsValue) : bool :=
  match v with
  | JsUndefined | JsNull => true
  | _ => false
  end.






(** [filename.replace(" ", "_")]: a string pattern replaces its first
    occurrence only. *)
Fixpoint replaceFirstSpace (s : string) : string :=
  match s with
  | EmptyString => EmptyString
  | String c rest =>
      if bool_decide (c = " "%char) then String "_"%char rest
      else String c (replaceFirstSpace rest)
  end.

Fixpoint containsSpace (s : string) : bool :=
  match s with
  | EmptyString => false
  | String c rest => bool_decide (c = " "%char) || containsSpace rest
  end.

(** The anchor element [download] builds once the blob is there. *)
Record Anchor : Type := mkAnchor {
  href : string;
  downloadName : option string
}.

(** What a call of [download] does: it throws, or it starts a fetch whose
    blob, given its object URL, becomes an anchor that is clicked. *)
Inductive Download : Type :=
| DownloadThrows (e : Thrown)
| DownloadFetches (url : string) (onBlob : string -> Anchor).

(** [download] of the utility module. *)
Definition download (url filename : string) : Download :=
  if bool_decide (url = EmptyString)
  then DownloadThrows (ErrorInstance "Resource url not provided! Please provide one")
  else DownloadFetches url
         (fun blobURL =>
            mkAnchor blobURL
              (if bool_decide (filename = EmptyString) then None
               else Some (replaceFirstSpace filename +:+ ".png"))).

(** The two loops of [removeKeysFromQuery]: each key to remove is deleted,
    then each key present at that point whose value is [null] or [undefined]. *)
Definition deleteKeys (keysToRemove : list string) (currentUrl : gmap string JsValue)
  : gmap string JsValue :=
  foldl (fun acc key => delete key acc) currentUrl keysToRemove.

Definition deleteNullish (currentUrl : gmap string JsValue) : gmap string JsValue :=
  foldl (fun acc key =>
           if nullish (default JsUndefined (acc !! key)) then delete key acc else acc)
        currentUrl (map_to_list currentUrl).*1.

(** [removeKeysFromQuery] of the utility module.  [qs.parse], [qs.stringify]
    and [window.location.pathname] are the environment's; [searchParams] is
    [params.searchParams.toString()]. *)
Definition removeKeysFromQuery
    (qs_parse : string -> gmap string JsValue)
    (qs_stringify : gmap string JsValue -> string)
    (pathname : string) (searchParams : string) (keysToRemove : list string) : string :=
  let currentUrl := qs_parse searchParams in
  let currentUrl := deleteKeys keysToRemove currentUrl in
  let currentUrl := deleteNullish currentUrl in
  pathname +:+ "?" +:+ qs_stringify currentUrl.

(** [debounce(func, delay)]: the variable [timeoutId] of the closure, the
    timers it has set that are still pending, each with the arguments its
    callback passes to [func], and the calls of [func] so far.  The clock is
    left out: a pending timer may fire at any later moment, whatever [delay]
    is.  Timer ids start at 1, so an id is truthy, and [clearInterval]
    cancels a pending timeout (the two share their table of ids). *)
Record Debounced : Type := mkDebounced {
  timeoutId : option nat;
  pendingTimers : gmap nat (list JsValue);
  nextTimerId : nat;
  funcCalls : list (list JsValue)
}.

(** What [debounce] returns, before its first call. *)
Definition debounce : Debounced := mkDebounced None ∅ 1 [].

(** A call of the debounced function with [args]. *)
Definition invoke (args : list JsValue) (d : Debounced) : Debounced :=
  let cleared :=
    match timeoutId d with
    | Some id => delete id (pendingTimers d)
    | None => pendingTimers d
    end in
  mkDebounced (Some (nextTimerId d)) (<[nextTimerId d := args]> cleared)
    (S (nextTimerId d)) (funcCalls d).

(** The timer [id] comes due: its callback, if it is still pending, calls
    [func.apply(null, args)]. *)
Definition fire (id : nat) (d : Debounced) : Debounced :=
  match pendingTimers d !! id with
  | Some args =>
      mkDebounced (timeoutId d) (delete id (pendingTimers d)) (nextTimerId d)
        (funcCalls d ++ [args])
  | None => d
  end.

Inductive DebounceEvent : Type :=
| Invoked (args : list JsValue)
| TimerDue (id : nat).

Definition debounceStep (d : Debounced) (e : DebounceEvent) : Debounced :=
  match e with
  | Invoked args => invoke args d
  | TimerDue id => fire id d
  end.

Definition debounceRun (events : list DebounceEvent) : Debounced :=
  foldl debounceStep debounce events.

(* --------------------------------------------------------------------- *)
(** *** Notions used in the statements about the utilities *)
(* --------------------------------------------------------------------- *)

(** The value found by following a path of keys. *)
Fixpoint getPath (keys : list string) (v : JsValue) : option JsValue :=
  match keys with
  | [] => Some v
  | key :: rest =>
      match ownProps v !! key with
      | Some inner => getPath rest inner
      | None => None
      end
  end.

(** The arguments of the most recent call among [events], if any. *)
Definition lastInvoked (events : list DebounceEvent) : option (list JsValue) :=
  foldl (fun acc e => match e with Invoked args => Some args | TimerDue _ => acc end)
        None events.

(** Values with no array anywhere inside. *)
Inductive ArrayFree : JsValue -> Prop :=
| free_undefined : ArrayFree JsUndefined
| free_null : ArrayFree JsNull
| free_bool b : ArrayFree (JsBool b)
| free_number n : ArrayFree (JsNumber n)
| free_string s : ArrayFree (JsString s)
| free_object props :
    (forall key v, props !! key = Some v -> ArrayFree v) ->
    ArrayFree (JsObject props).

End Js.

(* ===================================================================== *)
(** ** The image model *)
(* ===================================================================== *)

Module ImageModel.
Import Js.

(** The TypeScript types used by the [ImageModel] interface. *)
Inductive TsType : Type :=
| TsString
| TsNumber
| TsObject
| TsURL
| TsDate
| TsArray (elem : TsType)
| TsUnion (a b : TsType)
| TsRecord (members : list (string * TsType)).

Record Member : Type := mkMember {
  memberName : string;
  memberType : TsType;
  optional : bool
}.

(** [interface ImageModel extends Document]. *)
Definition ImageModel : list Member :=
  [ mkMember "title" TsString false;
    mkMember "transformationTypes" (TsArray TsString) false;
    mkMember "publicId" TsString false;
    mkMember "secureURL" TsString false;
    mkMember "width" TsNumber true;
    mkMember "height" TsNumber true;
    mkMember "config" TsObject true;
    mkMember "transformationUrl" (TsUnion TsString TsURL) true;
    mkMember "aspectRatio" TsString true;
    mkMember "color" TsString true;
    mkMember "prompt" TsString true;
    mkMember "author"
      (TsRecord [("_id", TsString); ("firstname", TsString); ("lastname", TsString)])
      false;
    mkMember "createdAt" TsDate false;
    mkMember "updatedAt" TsDate false ].

(** The constructors given as [type:] in the schema. *)
Inductive SchemaType : Type :=
| String_
| Number_
| Object_
| URL_
| ObjectId_
| Date_.

Record SchemaPath : Type := mkPath {
  path : string;
  type : SchemaType;
  required : bool;
  ref : option string;
  defaultNow : bool
}.

(** The object literal given to [new Schema]. *)
Definition imageSchemaDefinition : list SchemaPath :=
  [ mkPath "title" String_ true None false;
    mkPath "transformationTypes" String_ true None false;
    mkPath "publicId" String_ true None false;
    mkPath "secureURL" String_ true None false;
    mkPath "width" Number_ false None false;
    mkPath "height" Number_ false None false;
    mkPath "config" Object_ false None false;
    mkPath "transformationUrl" URL_ false None false;
    mkPath "aspectRatio" String_ false None false;
    mkPath "color" String_ false None false;
    mkPath "prompt" String_ false None false;
    mkPath "author" ObjectId_ false (Some "User") false;
    mkPath "createdAt" Date_ false None true;
    mkPath "updatedAt" Date_ false None true ].

Definition schemaPath (name : string) (schema : list SchemaPath) : option SchemaPath :=
  List.find (fun p => bool_decide (path p = name)) schema.

Definition interfaceMember (name : string) (members : list Member) : option Member :=
  List.find (fun m => bool_decide (memberName m = name)) members.

(** The object-document mapper looks the constructor given as [type:] up
    among its schema types.  [String], [Number], [Object] (its mixed type),
    [Schema.Types.ObjectId] and [Date] are there; the global [URL] class is
    not. *)
Definition isSchemaType (t : SchemaType) : bool :=
  match t with
  | URL_ => false
  | String_ | Number_ | Object_ | ObjectId_ | Date_ => true
  end.

(** The [TypeError] of [new Schema] for a path whose [type:] is not a schema
    type. *)
Inductive SchemaError : Type :=
| InvalidSchemaConfiguration (given : SchemaType) (at_path : string).

(** What evaluating a top-level declaration of the module comes to. *)
Inductive Evaluated (A : Type) : Type :=
| Defined_ (a : A)
| Throws (e : SchemaError).
Arguments Defined_ {A} a.
Arguments Throws {A} e.

(** [new Schema(definition)] adds the paths in the order of the literal and
    throws at the first one whose type it cannot interpret. *)
Definition newSchema (definition : list SchemaPath) : Evaluated (list SchemaPath) :=
  match List.find (fun p => negb (isSchemaType (type p))) definition with
  | Some p => Throws (InvalidSchemaConfiguration (type p) (path p))
  | None => Defined_ definition
  end.

(** [const ImageSchema = new Schema({ ... })]. *)
Definition ImageSchema : Evaluated (list SchemaPath) :=
  newSchema imageSchemaDefinition.

(** A compiled model: its name and its schema. *)
Record Model : Type := mkModel {
  modelName : string;
  schema : list SchemaPath
}.

(** [const Image = models?.Image || model('Image', ImageSchema)], on the
    first load of the module: the statement is reached only if the one
    before it has not thrown. *)
Definition Image : Evaluated Model :=
  match ImageSchema with
  | Defined_ built => Defined_ (mkModel "Image" built)
  | Throws e => Throws e
  end.

End ImageModel.

(* ===================================================================== *)
(** ** The user ledger: records and the backing store *)
(* ===================================================================== *)

Module Ledger.
Import Js.

(** Primary keys, in the order the database hands them out. *)
Definition ObjectId : Type := N.

(** [interface CreateUserParams]. *)
Module CreateUserParams.
Record t : Type := mk {
  clerkId : string;
  email : string;
  username : string;
  photo : string;
  firstname : string;
  lastname : string;
  planId : Z;
  creditBalance : Z;
  stripeId : string;
  stripeCustomerId : string
}.
End CreateUserParams.

(** [interface UpdateUserParams].  The parameter of [updateUser] is typed
    [any | UpdateUserParams], so each field may be present or not. *)
Module UpdateUserParams.
Record t : Type := mk {
  email : option string;
  username : option string;
  photo : option string;
  firstname : option string;
  lastname : option string;
  planId : option Z;
  creditBalance : option Z;
  stripeId : option string;
  stripeCustomerId : option string
}.
Definition none : t := mk None None None None None None None None None.
End UpdateUserParams.

Module User.
(** Modelled from the spec: the user model ([../database/models/user.model])
    is not among the sources; a stored user has the fields of
    [CreateUserParams] and the primary key [_id], and [clerkId] is unique. *)
Record t : Type := mk {
  _id : ObjectId;
  clerkId : string;
  email : string;
  username : string;
  photo : string;
  firstname : string;
  lastname : string;
  planId : Z;
  creditBalance : Z;
  stripeId : string;
  stripeCustomerId : string
}.
End User.

(** The document [User.create(user)] inserts under primary key [id]. *)
Definition newDocument (id : ObjectId) (user : CreateUserParams.t) : User.t :=
  User.mk id
    (CreateUserParams.clerkId user) (CreateUserParams.email user)
    (CreateUserParams.username user) (CreateUserParams.photo user)
    (CreateUserParams.firstname user) (CreateUserParams.lastname user)
    (CreateUserParams.planId user) (CreateUserParams.creditBalance user)
    (CreateUserParams.stripeId user) (CreateUserParams.stripeCustomerId user).

(** A stored user without its primary key. *)
Definition creationFields (u : User.t) : CreateUserParams.t :=
  CreateUserParams.mk
    (User.clerkId u) (User.email u) (User.username u) (User.photo u)
    (User.firstname u) (User.lastname u) (User.planId u)
    (User.creditBalance u) (User.stripeId u) (User.stripeCustomerId u).

(** A plain update document sets the fields it names. *)
Definition setFields (p : UpdateUserParams.t) (u : User.t) : User.t :=
  User.mk (User._id u) (User.clerkId u)
    (default (User.email u) (UpdateUserParams.email p))
    (default (User.username u) (UpdateUserParams.username p))
    (default (User.photo u) (UpdateUserParams.photo p))
    (default (User.firstname u) (UpdateUserParams.firstname p))
    (default (User.lastname u) (UpdateUserParams.lastname p))
    (default (User.planId u) (UpdateUserParams.planId p))
    (default (User.creditBalance u) (UpdateUserParams.creditBalance p))
    (default (User.stripeId u) (UpdateUserParams.stripeId p))
    (default (User.stripeCustomerId u) (UpdateUserParams.stripeCustomerId p)).

(** [creditBalance] and [creditFee] are numbers of the language, that is
    IEEE 754 doubles.  The ledger counts credits in whole numbers, kept here
    as integers; every whole number up to [2^53] in magnitude is a double,
    beyond that only every second, fourth, ... one is. *)
Definition MAX_SAFE_INTEGER : Z := 9007199254740991.   (* 2^53 - 1 *)

(** [Number.isSafeInteger(n)], for a whole [n]. *)
Definition isSafeInteger (n : Z) : bool :=
  ((- MAX_SAFE_INTEGER <=? n) && (n <=? MAX_SAFE_INTEGER))%Z.

(** Every number of the list is a safe integer. *)
Definition allSafe (ns : list Z) : bool := forallb isSafeInteger ns.

(** The double nearest to a whole number, ties going to the even
    significand of 53 bits.  (Magnitudes from [2^1024] on, which round to
    [Infinity], have no counterpart here.) *)
Definition roundToDouble (z : Z) : Z :=
  let m := Z.abs z in
  if (m <=? MAX_SAFE_INTEGER + 1)%Z then z
  else
    let e := (Z.log2 m - 52)%Z in
    let q := (m / 2 ^ e)%Z in
    let r := (m mod 2 ^ e)%Z in
    let half := (2 ^ (e - 1))%Z in
    let q' := if (r <? half)%Z then q
              else if (half <? r)%Z then (q + 1)%Z
              else if Z.even q then q else (q + 1)%Z in
    (Z.sgn z * (q' * 2 ^ e))%Z.

(** [a + b] on two whole doubles. *)
Definition addDoubles (a b : Z) : Z := roundToDouble (a + b).

(** [{ $inc: { creditBalance: amount } }]. *)
Definition incCreditBalance (amount : Z) (u : User.t) : User.t :=
  User.mk (User._id u) (User.clerkId u) (User.email u) (User.username u)
    (User.photo u) (User.firstname u) (User.lastname u) (User.planId u)
    (addDoubles (User.creditBalance u) amount)
    (User.stripeId u) (User.stripeCustomerId u).

(** The filters and update documents the actions pass to the model. *)
Inductive Filter : Type :=
| ByClerkId (clerkId : string)       (* [{ clerkId }] *)
| ById (id : ObjectId).              (* [{ _id: userId }] *)

Inductive UpdateDoc : Type :=
| Fields (user : UpdateUserParams.t)         (* [user] *)
| Inc_creditBalance (creditFee : Z).         (* [{ $inc: { creditBalance: creditFee } }] *)

Definition matches (f : Filter) (u : User.t) : bool :=
  match f with
  | ByClerkId c => bool_decide (User.clerkId u = c)
  | ById id => bool_decide (User._id u = id)
  end.

Definition applyUpdate (d : UpdateDoc) (u : User.t) : User.t :=
  match d with
  | Fields p => setFields p u
  | Inc_creditBalance fee => incCreditBalance fee u
  end.

(** The first document that matches, as a query without a sort finds it. *)
Definition findFirst (f : Filter) (docs : list User.t) : option User.t :=
  List.find (matches f) docs.

(** Replace the first matching document; the new document and collection. *)
Fixpoint updateFirst (f : Filter) (g : User.t -> User.t) (docs : list User.t)
  : option (User.t * list User.t) :=
  match docs with
  | [] => None
  | u :: rest =>
      if matches f u then Some (g u, g u :: rest)
      else match updateFirst f g rest with
           | Some (u', rest') => Some (u', u :: rest')
           | None => None
           end
  end.

(** Remove the first matching document; the removed document and collection. *)
Fixpoint removeFirst (f : Filter) (docs : list User.t)
  : option (User.t * list User.t) :=
  match docs with
  | [] => None
  | u :: rest =>
      if matches f u then Some (u, rest)
      else match removeFirst f rest with
           | Some (u', rest') => Some (u', u :: rest')
           | None => None
           end
  end.

(** The calls the actions await: the connection helper and the model's
    query methods, indexed by what they resolve to. *)
Inductive StoreCall : Type -> Type :=
| connectToDatabase : StoreCall unit
| User_create (user : CreateUserParams.t) : StoreCall User.t
| User_findOne (clerkId : string) : StoreCall (option User.t)
| User_findOneAndUpdate (filter : Filter) (update : UpdateDoc)
    : StoreCall (option User.t)                          (* with [{ new: true }] *)
| User_findOneAndDelete (clerkId : string) : StoreCall (option User.t)
| User_findByIdAndDelete (id : ObjectId) : StoreCall (option User.t).

Definition AnyCall : Type := { R : Type & StoreCall R }.

Definition called {R : Type} (call : StoreCall R) : AnyCall := existT R call.

(** Everything an action can touch. *)
Record World : Type := mkWorld {
  users : list User.t;               (* the users collection, insertion order *)
  nextId : ObjectId;                 (* the next primary key to assign *)
  connected : bool;                  (* the cached connection *)
  opened : nat;                      (* connections opened so far *)
  failures : list (option Thrown);   (* what the coming store calls raise *)
  console : list string;             (* lines written by [console.error] *)
  revalidated : list string;         (* paths passed to [revalidatePath] *)
  trace : list AnyCall               (* the store calls made, oldest first *)
}.

Definition setUsers (w : World) (us : list User.t) (n : ObjectId) : World :=
  mkWorld us n (connected w) (opened w) (failures w) (console w)
    (revalidated w) (trace w).

Definition duplicateKey : string := "E11000 duplicate key error".

(** Modelled from the spec: [connectToDatabase] of [../database/mongoose] is
    not among the sources; it reuses the cached connection and opens one
    only when there is none. *)
Definition connect (w : World) : World :=
  if connected w then w
  else mkWorld (users w) (nextId w) true (S (opened w)) (failures w)
         (console w) (revalidated w) (trace w).

(** Modelled from the spec: the user model is not among the sources;
    [User.create] stores the input under the next primary key and refuses a
    second record with the same [clerkId]. *)
Definition insert (user : CreateUserParams.t) (w : World) : (Thrown + User.t) * World :=
  if existsb (matches (ByClerkId (CreateUserParams.clerkId user))) (users w)
  then (inl (ErrorInstance duplicateKey), w)
  else
    let doc := newDocument (nextId w) user in
    (inr doc, setUsers w (users w ++ [doc]) (N.succ (nextId w))).

(** What the database does with a call it accepts. *)
Definition serve {R : Type} (call : StoreCall R) (w : World)
  : (Thrown + R) * World :=
  match call in StoreCall R return (Thrown + R) * World with
  | connectToDatabase => (inr tt, connect w)
  | User_create user => insert user w
  | User_findOne clerkId => (inr (findFirst (ByClerkId clerkId) (users w)), w)
  | User_findOneAndUpdate filter update =>
      match updateFirst filter (applyUpdate update) (users w) with
      | Some (doc, us) => (inr (Some doc), setUsers w us (nextId w))
      | None => (inr None, w)
      end
  | User_findOneAndDelete clerkId =>
      match removeFirst (ByClerkId clerkId) (users w) with
      | Some (doc, us) => (inr (Some doc), setUsers w us (nextId w))
      | None => (inr None, w)
      end
  | User_findByIdAndDelete id =>
      match removeFirst (ById id) (users w) with
      | Some (doc, us) => (inr (Some doc), setUsers w us (nextId w))
      | None => (inr None, w)
      end
  end.

(** A store call is recorded, and uses up the head of [failures]. *)
Definition record {R : Type} (call : StoreCall R) (w : World) : World :=
  mkWorld (users w) (nextId w) (connected w) (opened w) (tail (failures w))
    (console w) (revalidated w) (trace w ++ [called call]).

(** One store call: it either raises what [failures] schedules for it
    (leaving the data alone) or is served. *)
Definition perform {R : Type} (call : StoreCall R) (w : World)
  : (Thrown + R) * World :=
  match failures w with
  | Some t :: _ => (inl t, record call w)
  | _ => serve call (record call w)
  end.

(** The world once [connectToDatabase] has been awaited without failure. *)
Definition afterConnect (w : World) : World :=
  connect (record connectToDatabase w).

Definition writeConsole (line : string) (w : World) : World :=
  mkWorld (users w) (nextId w) (connected w) (opened w) (failures w)
    (console w ++ [line]) (revalidated w) (trace w).

Definition markRevalidated (p : string) (w : World) : World :=
  mkWorld (users w) (nextId w) (connected w) (opened w) (failures w)
    (console w) (revalidated w ++ [p]) (trace w).

(* --------------------------------------------------------------------- *)
(** *** Asynchronous functions *)
(* --------------------------------------------------------------------- *)

(** The body of an [async] function: it returns, throws, awaits a store call
    (continuing with its result, or with what it raised), or makes one of
    the two synchronous calls of this module. *)
Inductive Prog (A : Type) : Type :=
| Return (a : A)
| Throw (t : Thrown)
| Await {R : Type} (call : StoreCall R) (k : R -> Prog A) (h : Thrown -> Prog A)
| RevalidatePath (path : string) (k : Prog A)
| ConsoleError (line : string) (k : Prog A).

Arguments Return {A} a.
Arguments Throw {A} t.
Arguments Await {A R} call k h.
Arguments RevalidatePath {A} path k.
Arguments ConsoleError {A} line k.

Fixpoint bind {A B : Type} (p : Prog A) (f : A -> Prog B) : Prog B :=
  match p with
  | Return a => f a
  | Throw t => Throw t
  | Await call k h => Await call (fun r => bind (k r) f) (fun t => bind (h t) f)
  | RevalidatePath path k => RevalidatePath path (bind k f)
  | ConsoleError line k => ConsoleError line (bind k f)
  end.

(** [try { p } catch (err) { handler err }]: what [p] throws, and what a call
    awaited in [p] raises, goes to the handler; the handler runs outside the
    [try]. *)
Fixpoint tryCatch {A : Type} (p : Prog A) (handler : Thrown -> Prog A) : Prog A :=
  match p with
  | Return a => Return a
  | Throw t => handler t
  | Await call k h =>
      Await call (fun r => tryCatch (k r) handler) (fun t => tryCatch (h t) handler)
  | RevalidatePath path k => RevalidatePath path (tryCatch k handler)
  | ConsoleError line k => ConsoleError line (tryCatch k handler)
  end.

Definition await {R : Type} (call : StoreCall R) : Prog R :=
  Await call Return Throw.

Declare Scope prog_scope.
Delimit Scope prog_scope with prog.
Notation "x <- p ;; q" := (bind p (fun x => q))
  (at level 100, p at next level, right associativity) : prog_scope.
Notation "p ;; q" := (bind p (fun _ => q))
  (at level 100, right associativity) : prog_scope.
#[local] Open Scope prog_scope.

(** What an action resolves to. *)
Inductive Resolved : Type :=
| Json (user : User.t)      (* [JSON.parse(JSON.stringify(doc))] *)
| Null
| Undefined.

(** [JSON.parse(JSON.stringify(doc))] of a document of strings and integers. *)
Definition JSON_roundtrip (doc : User.t) : Resolved := Json doc.

(** [handleError(err)] inside an action: the lines go to the console, then
    the error is thrown, or the call returns. *)
Definition invokeHandleError (err : Thrown) : Prog unit :=
  let handled := handleError err in
  fold_right ConsoleError
    (match rethrown handled with
     | Some e => Throw e
     | None => Return tt
     end)
    (logged handled).

(** [catch (err) { handleError(err); }] and the end of the function. *)
Definition catchClause (err : Thrown) : Prog Resolved :=
  invokeHandleError err ;; Return Undefined.

(** [createUser] (user.actions.ts, lines 14-24). *)
Definition createUser (user : CreateUserParams.t) : Prog Resolved :=
  tryCatch
    (await connectToDatabase ;;
     newUser <- await (User_create user) ;;
     Return (JSON_roundtrip newUser))
    catchClause.

(** [getUserById] (lines 45-57): the lookup is by [clerkId]. *)
Definition getUserById (userId : string) : Prog Resolved :=
  tryCatch
    (await connectToDatabase ;;
     user <- await (User_findOne userId) ;;
     match user with
     | None => Throw (ErrorInstance "User not found")
     | Some user => Return (JSON_roundtrip user)
     end)
    catchClause.

(** [updateUser] (lines 66-80): the payload goes to the model as it is. *)
Definition updateUser (clerkId : string) (user : UpdateUserParams.t) : Prog Resolved :=
  tryCatch
    (await connectToDatabase ;;
     updatedUser <- await (User_findOneAndUpdate (ByClerkId clerkId) (Fields user)) ;;
     match updatedUser with
     | None => Throw (ErrorInstance "User update failed")
     | Some updatedUser => Return (JSON_roundtrip updatedUser)
     end)
    catchClause.

(** [deleteUser] (lines 100-119): a delete by [clerkId], then a delete by the
    primary key of what the first delete returned. *)
Definition deleteUser (clerkId : string) : Prog Resolved :=
  tryCatch
    (await connectToDatabase ;;
     deleteUser <- await (User_findOneAndDelete clerkId) ;;
     match deleteUser with
     | None => Throw (ErrorInstance "User not found")
     | Some deleteUser =>
         deletedUser <- await (User_findByIdAndDelete (User._id deleteUser)) ;;
         RevalidatePath "/"
           (Return (match deletedUser with
                    | Some deletedUser => JSON_roundtrip deletedUser
                    | None => Null
                    end))
     end)
    catchClause.

(** [updateCredits] (lines 128-144).  [userId] is the primary key that the
    string passed by the caller denotes. *)
Definition updateCredits (userId : ObjectId) (creditFee : Z) : Prog Resolved :=
  tryCatch
    (await connectToDatabase ;;
     updateUserCredits <-
       await (User_findOneAndUpdate (ById userId) (Inc_creditBalance creditFee)) ;;
     match updateUserCredits with
     | None => Throw (ErrorInstance "User credits update failed")
     | Some updateUserCredits => Return (JSON_roundtrip updateUserCredits)
     end)
    catchClause.

(** How the promise of an action settles. *)
Inductive Outcome (A : Type) : Type :=
| Resolves (a : A)
| Rejects (t : Thrown).

Arguments Resolves {A} a.
Arguments Rejects {A} t.

(** One action run on its own, start to end. *)
Fixpoint run {A : Type} (p : Prog A) (w : World) : Outcome A * World :=
  match p with
  | Return a => (Resolves a, w)
  | Throw t => (Rejects t, w)
  | Await call k h =>
      match perform call w with
      | (inr r, w') => run (k r) w'
      | (inl t, w') => run (h t) w'
      end
  | RevalidatePath path k => run k (markRevalidated path w)
  | ConsoleError line k => run k (writeConsole line w)
  end.

(** One step of an action: the next call is made and the action moves on. *)
Definition step {A : Type} (p : Prog A) (w : World) : Prog A * World :=
  match p with
  | Await call k h =>
      match perform call w with
      | (inr r, w') => (k r, w')
      | (inl t, w') => (h t, w')
      end
  | RevalidatePath path k => (k, markRevalidated path w)
  | ConsoleError line k => (k, writeConsole line w)
  | _ => (p, w)
  end.

(** Two actions in flight against the same store.  The schedule says whose
    step comes next ([true]: the first action); when it is used up the first
    action runs to its end, then the second.  Every order in which the store
    can serve the calls of the two actions is the run of some schedule. *)
Fixpoint interleave {A B : Type} (schedule : list bool)
    (p : Prog A) (q : Prog B) (w : World) : Outcome A * Outcome B * World :=
  match schedule with
  | [] =>
      let '(a, w1) := run p w in
      let '(b, w2) := run q w1 in
      (a, b, w2)
  | true :: rest => let '(p', w') := step p w in interleave rest p' q w'
  | false :: rest => let '(q', w') := step q w in interleave rest p q' w'
  end.

(* --------------------------------------------------------------------- *)
(** *** The exposed operations, and the states they reach *)
(* --------------------------------------------------------------------- *)

Inductive Operation : Type :=
| CreateUser (user : CreateUserParams.t)
| GetUserById (userId : string)
| UpdateUser (clerkId : string) (user : UpdateUserParams.t)
| DeleteUser (clerkId : string)
| UpdateCredits (userId : ObjectId) (creditFee : Z).

Definition action (op : Operation) : Prog Resolved :=
  match op with
  | CreateUser user => createUser user
  | GetUserById userId => getUserById userId
  | UpdateUser clerkId user => updateUser clerkId user
  | DeleteUser clerkId => deleteUser clerkId
  | UpdateCredits userId creditFee => updateCredits userId creditFee
  end.

(** An empty database, with the failures the store is going to raise. *)
Definition initial (fs : list (option Thrown)) : World :=
  mkWorld [] 0%N false 0 fs [] [] [].

(** The worlds reached from an empty database by running operations, the
    store failing whenever it likes in between. *)
Inductive reachable : World -> Prop :=
| reachable_initial fs : reachable (initial fs)
| reachable_run op w : reachable w -> reachable (snd (run (action op) w))
| reachable_fail fs w :
    reachable w ->
    reachable (mkWorld (users w) (nextId w) (connected w) (opened w) fs
                 (console w) (revalidated w) (trace w)).

(** Primary keys are unique and older than the next one; [clerkId] is unique. *)
Definition wellFormed (w : World) : Prop :=
  NoDup (User._id <$> users w) /\
  NoDup (User.clerkId <$> users w) /\
  Forall (fun u => (User._id u < nextId w)%N) (users w).

(** The store raises nothing from here on. *)
Definition quiet (w : World) : Prop :=
  Forall (fun f => f = None) (failures w).

Definition balanceOf (id : ObjectId) (w : World) : option Z :=
  User.creditBalance <$> findFirst (ById id) (users w).

(** The fields of a stored user, for statements that range over them. *)
Inductive Field : Type :=
| F_id | FclerkId | Femail | Fusername | Fphoto | Ffirstname | Flastname
| FplanId | FcreditBalance | FstripeId | FstripeCustomerId.

Inductive FieldValue : Type :=
| IdValue (id : ObjectId)
| StringValue (s : string)
| NumberValue (n : Z).

Definition readField (f : Field) (u : User.t) : FieldValue :=
  match f with
  | F_id => IdValue (User._id u)
  | FclerkId => StringValue (User.clerkId u)
  | Femail => StringValue (User.email u)
  | Fusername => StringValue (User.username u)
  | Fphoto => StringValue (User.photo u)
  | Ffirstname => StringValue (User.firstname u)
  | Flastname => StringValue (User.lastname u)
  | FplanId => NumberValue (User.planId u)
  | FcreditBalance => NumberValue (User.creditBalance u)
  | FstripeId => StringValue (User.stripeId u)
  | FstripeCustomerId => StringValue (User.stripeCustomerId u)
  end.

(** The value an update payload names for a field, if it names the field. *)
Definition named (p : UpdateUserParams.t) (f : Field) : option FieldValue :=
  match f with
  | F_id | FclerkId => None
  | Femail => StringValue <$> UpdateUserParams.email p
  | Fusername => StringValue <$> UpdateUserParams.username p
  | Fphoto => StringValue <$> UpdateUserParams.photo p
  | Ffirstname => StringValue <$> UpdateUserParams.firstname p
  | Flastname => StringValue <$> UpdateUserParams.lastname p
  | FplanId => NumberValue <$> UpdateUserParams.planId p
  | FcreditBalance => NumberValue <$> UpdateUserParams.creditBalance p
  | FstripeId => StringValue <$> UpdateUserParams.stripeId p
  | FstripeCustomerId => StringValue <$> UpdateUserParams.stripeCustomerId p
  end.

(** The operations whose update document writes [creditBalance]. *)
Definition writesCreditBalance (op : Operation) : bool :=
  match op with
  | UpdateCredits _ _ => true
  | UpdateUser _ user => bool_decide (is_Some (UpdateUserParams.creditBalance user))
  | _ => false
  end.

(* --------------------------------------------------------------------- *)
(** *** Notions used in the statements below *)
(* --------------------------------------------------------------------- *)

(** A [try] body in which what an awaited call raises is thrown on as it
    is, and which does not write to the console. *)
Fixpoint propagates {A : Type} (p : Prog A) : Prop :=
  match p with
  | Return _ | Throw _ => True
  | Await call k h => (forall t, h t = Throw t) /\ (forall r, propagates (k r))
  | RevalidatePath _ k => propagates k
  | ConsoleError _ _ => False
  end.

(** Every store call the program can make satisfies [Q]. *)
Fixpoint callsOnly {A : Type} (Q : forall R : Type, StoreCall R -> Prop) (p : Prog A) : Prop :=
  match p with
  | Return _ | Throw _ => True
  | Await call k h =>
      Q _ call /\ (forall r, callsOnly Q (k r)) /\ (forall t, callsOnly Q (h t))
  | RevalidatePath _ k => callsOnly Q k
  | ConsoleError _ k => callsOnly Q k
  end.

(** The store calls that insert nothing and carry no update of [creditBalance]. *)
Definition leavesBalances (R : Type) (call : StoreCall R) : Prop :=
  match call with
  | User_create _ => False
  | User_findOneAndUpdate _ (Inc_creditBalance _) => False
  | User_findOneAndUpdate _ (Fields user) => UpdateUserParams.creditBalance user = None
  | _ => True
  end.

(** The store calls of [updateCredits userId creditFee]: the connection and
    the increment by primary key, and no read. *)
Definition incrementsOnly (userId : ObjectId) (creditFee : Z) (R : Type)
    (call : StoreCall R) : Prop :=
  match call with
  | connectToDatabase => True
  | User_findOneAndUpdate (ById id) (Inc_creditBalance fee) =>
      id = userId /\ fee = creditFee
  | _ => False
  end.

(** The store calls that only read. *)
Definition readsOnly (R : Type) (call : StoreCall R) : Prop :=
  match call with
  | connectToDatabase | User_findOne _ => True
  | _ => False
  end.

(** A program that never calls [revalidatePath]. *)
Fixpoint neverRevalidates {A : Type} (p : Prog A) : Prop :=
  match p with
  | Return _ | Throw _ => True
  | Await _ k h => (forall r, neverRevalidates (k r)) /\ (forall t, neverRevalidates (h t))
  | RevalidatePath _ _ => False
  | ConsoleError _ k => neverRevalidates k
  end.

(** The store calls of [createUser user]. *)
Definition createsOnly (user : CreateUserParams.t) (R : Type) (call : StoreCall R) : Prop :=
  match call with
  | connectToDatabase => True
  | User_create user' => user' = user
  | _ => False
  end.

(** Every record of [w'] has the primary key and the balance of a record of [w]. *)
Definition balancesKept (w w' : World) : Prop :=
  forall u', u' ∈ users w' ->
    exists u, u ∈ users w /\ User._id u = User._id u' /\
              User.creditBalance u = User.creditBalance u'.

(** [updateCredits] once [connectToDatabase] has been awaited. *)
Definition updateCredits_connected (userId : ObjectId) (creditFee : Z) : Prog Resolved :=
  tryCatch
    (updateUserCredits <-
       await (User_findOneAndUpdate (ById userId) (Inc_creditBalance creditFee)) ;;
     match updateUserCredits with
     | None => Throw (ErrorInstance "User credits update failed")
     | Some updateUserCredits => Return (JSON_roundtrip updateUserCredits)
     end)
    catchClause.

(** Where an [updateCredits userId creditFee] in flight stands, and how much
    of [creditFee] it has applied so far. *)
Inductive InFlight (userId : ObjectId) (creditFee : Z) : Prog Resolved -> Z -> Prop :=
| at_start : InFlight userId creditFee (updateCredits userId creditFee) 0
| at_connected : InFlight userId creditFee (updateCredits_connected userId creditFee) 0
| at_end doc : InFlight userId creditFee (Return (Json doc)) creditFee.

(** For contrast only, not part of the program: a caller that adjusts a
    balance by reading the record with [getUserById] and writing the sum back
    with [updateUser]. *)
Definition readModifyWrite (clerkId : string) (delta : Z) : Prog Resolved :=
  fetched <- getUserById clerkId ;;
  match fetched with
  | Json user =>
      updateUser clerkId
        (UpdateUserParams.mk None None None None None None
           (Some (addDoubles (User.creditBalance user) delta)) None None)
  | other => Return other
  end.

(** A user, a store that holds it, and an update that names a balance. *)
Definition sampleUser : CreateUserParams.t :=
  CreateUserParams.mk "user_2b" "ada@example.com" "ada" "ada.png" "Ada" "Lovelace"
    1 10 "" "".

Definition sampleWorld : World := snd (run (createUser sampleUser) (initial [])).

(** A store whose one user holds an odd balance, 11. *)
Definition oddUser : CreateUserParams.t :=
  CreateUserParams.mk "user_2c" "alan@example.com" "alan" "alan.png" "Alan" "Turing"
    1 11 "" "".

Definition oddWorld : World := snd (run (createUser oddUser) (initial [])).

Definition sampleGrant : UpdateUserParams.t :=
  UpdateUserParams.mk None None None None None None (Some 999%Z) None None.

Definition sampleRename : UpdateUserParams.t :=
  UpdateUserParams.mk None (Some "x") None None None None None None None.

End Ledger.

(* ===================================================================== *)
(** ** Properties of the utility module *)
(* ===================================================================== *)

Module JsFacts.
Import Js.

(** *** The utilities on small inputs *)

Example deepMergeObjects_nested :
  deepMergeObjects
    (JsObject {[ "a" := JsNumber 1; "b" := JsObject {[ "x" := JsNumber 1 ]} ]})
    (Value (JsObject {[ "a" := JsNumber 2; "c" := JsNull;
                        "b" := JsObject {[ "x" := JsNumber 7; "y" := JsNumber 5 ]} ]}))
  = Returns (JsObject {[ "a" := JsNumber 1; "c" := JsNull;
                         "b" := JsObject {[ "x" := JsNumber 1; "y" := JsNumber 5 ]} ]}).
Proof. vm_compute. reflexivity. Qed.

Example deepMergeObjects_null_is_not_an_object :
  deepMergeObjects (JsObject {[ "a" := JsNull ]})
                   (Value (JsObject {[ "a" := JsObject {[ "x" := JsNumber 1 ]} ]}))
  = Returns (JsObject {[ "a" := JsNull ]}).
Proof. vm_compute. reflexivity. Qed.

Example deepMergeObjects_array_into_object :
  deepMergeObjects (JsArray [JsNumber 1; JsNumber 2])
                   (Value (JsObject {[ "a" := JsNumber 1 ]}))
  = Returns (JsObject {[ "a" := JsNumber 1; "0" := JsNumber 1; "1" := JsNumber 2 ]}).
Proof. vm_compute. reflexivity. Qed.

(** An own key [hasOwnProperty] of the first object makes the filter of the
    loop a call of a value that is no function, also one level down. *)
Example deepMergeObjects_own_hasOwnProperty_nested :
  deepMergeObjects
    (JsObject {[ "a" := JsObject {[ "hasOwnProperty" := JsBool true ]} ]})
    (Value (JsObject {[ "a" := JsObject ∅ ]}))
  = ThrowsTypeError.
Proof. vm_compute. reflexivity. Qed.

(** In the second object the same key is copied like any other. *)
Example deepMergeObjects_hasOwnProperty_in_obj2 :
  deepMergeObjects (JsObject {[ "a" := JsNumber 1 ]})
                   (Value (JsObject {[ "hasOwnProperty" := JsNumber 2 ]}))
  = Returns (JsObject {[ "a" := JsNumber 1; "hasOwnProperty" := JsNumber 2 ]}).
Proof. vm_compute. reflexivity. Qed.

(** An own key [__proto__] of the first object is assigned through the
    inherited setter: a number is ignored, an object or [null] becomes the
    prototype of the result. *)
Example deepMergeObjects_own_proto_number :
  deepMergeObjects (JsObject {[ "__proto__" := JsNumber 5; "a" := JsNumber 1 ]})
                   (Value (JsObject ∅))
  = Returns (JsObject {[ "a" := JsNumber 1 ]}).
Proof. vm_compute. reflexivity. Qed.

Example deepMergeObjects_own_proto_object :
  deepMergeObjects (JsObject {[ "__proto__" := JsObject {[ "a" := JsNumber 1 ]} ]})
                   (Value (JsObject ∅))
  = ReplacesPrototype.
Proof. vm_compute. reflexivity. Qed.

(** When the second object has an own [__proto__] too, the spread has made
    it an own property of the result, and the assignment is an ordinary one. *)
Example deepMergeObjects_own_proto_on_both_sides :
  deepMergeObjects (JsObject {[ "__proto__" := JsNumber 5 ]})
                   (Value (JsObject {[ "__proto__" := JsNumber 6 ]}))
  = Returns (JsObject {[ "__proto__" := JsNumber 5 ]}).
Proof. vm_compute. reflexivity. Qed.

Example handleError_of_an_Error :
  handleError (ErrorInstance "User not found")
  = mkHandled ["User not found"] (Some (ErrorInstance "Error: User not found")).
Proof. reflexivity. Qed.

Example handleError_of_a_string :
  handleError (NonError (JsString "boom"))
  = mkHandled ["boom"]
      (Some (ErrorInstance
               ("Unknown error: " +:+ String dquote ("boom" +:+ String dquote EmptyString)))).
Proof. reflexivity. Qed.

Example handleError_of_a_number :
  handleError (NonError (JsNumber 42)) = mkHandled [] None.
Proof. reflexivity. Qed.

(** *** The loop of [deepMergeObjects] *)

Lemma deepMergeObjects_unfold (obj1 : JsValue) (obj2 : Operand) :
  deepMergeObjects obj1 obj2 =
  if nullishOperand obj2 then Returns obj1 else
  match obj1 with
  | JsObject props =>
      if bool_decide (props !! "hasOwnProperty" = None)
      then finish (map_fold (assignStep obj2) (Running (spreadOf obj2) false) props)
      else ThrowsTypeError
  | JsArray items => finish (forInArray (assignStep obj2) 0 items (Running (spreadOf obj2) false))
  | JsString s =>
      finish (map_fold (fun key v1 state =>
                          match state with
                          | Aborted => Aborted
                          | Running output reparented => assignTo key v1 output reparented
                          end)
                (Running (spreadOf obj2) false) (ownProps (JsString s)))
  | _ => Returns (JsObject (spreadOf obj2))
  end.
Proof. by destruct obj1. Qed.

(** An index never reads [__proto__]. *)
Lemma pretty_N_go_not_underscore (x : N) (s s' : string) :
  s <> "_" +:+ s' -> pretty_N_go x s <> "_" +:+ s'.
Proof.
  revert s. induction (N.lt_wf_0 x) as [x _ IH]; intros s Hs.
  assert (x = 0 \/ 0 < x)%N as [->|Hpos] by lia.
  - by rewrite pretty_N_go_0.
  - rewrite pretty_N_go_step by done. apply IH.
    { by apply N.div_lt. }
    unfold pretty_N_char. by repeat case_match.
Qed.

Lemma index_not_proto (i : nat) : pretty i <> "__proto__".
Proof.
  unfold pretty, pretty_nat, pretty, pretty_N.
  destruct (decide (N.of_nat i = 0%N)); [done|].
  by apply (pretty_N_go_not_underscore _ "" "_proto__").
Qed.

Lemma assignTo_ordinary (key : string) (value : JsValue)
      (output : gmap string JsValue) (reparented : bool) :
  key <> "__proto__" ->
  assignTo key value output reparented = Running (<[key := value]> output) reparented.
Proof. intros Hkey. unfold assignTo. by rewrite bool_decide_eq_false_2. Qed.

Section Loops.
(** A loop body that assigns [value key v1] at every [key] it is run on. *)
Variable value : string -> JsValue -> JsValue.
Variable body : string -> JsValue -> Loop -> Loop.

Lemma forIn_object_lookup (spread props : gmap string JsValue) :
  (forall key v1 output, props !! key = Some v1 ->
     body key v1 (Running output false) = Running (<[key := value key v1]> output) false) ->
  exists output,
    map_fold body (Running spread false) props = Running output false /\
    forall key, output !! key =
                match props !! key with
                | Some v1 => Some (value key v1)
                | None => spread !! key
                end.
Proof.
  apply (map_fold_weak_ind
           (fun r (m : gmap string JsValue) =>
              (forall key v1 output, m !! key = Some v1 ->
                 body key v1 (Running output false)
                 = Running (<[key := value key v1]> output) false) ->
              exists output, r = Running output false /\
                forall key, output !! key =
                  match m !! key with Some v1 => Some (value key v1) | None => spread !! key end)).
  - intros _. exists spread. split; [done|]. intros key. by rewrite lookup_empty.
  - intros i x m r Hfresh IH Hbody.
    destruct IH as (output & -> & Hlookup).
    { intros key v1 output Hk. apply Hbody. rewrite lookup_insert_ne; [done|].
      intros <-. congruence. }
    exists (<[i := value i x]> output). split.
    + apply Hbody. by rewrite lookup_insert_eq.
    + intros key. destruct (decide (i = key)) as [->|Hne].
      * by rewrite !lookup_insert_eq.
      * rewrite !lookup_insert_ne by done. apply Hlookup.
Qed.

Lemma indexed_below (items : list JsValue) (i j : nat) :
  (j < i)%nat -> indexed i items !! pretty j = None.
Proof.
  revert i. induction items as [|v rest IH]; intros i Hlt; simpl.
  - apply lookup_empty.
  - rewrite lookup_insert_ne.
    + apply IH. lia.
    + intros Heq. apply (inj pretty) in Heq. lia.
Qed.

Lemma forIn_array_lookup (items : list JsValue) (i : nat) (spread : gmap string JsValue) :
  (forall j v1 output, items !! j = Some v1 ->
     body (pretty (i + j)%nat) v1 (Running output false)
     = Running (<[pretty (i + j)%nat := value (pretty (i + j)%nat) v1]> output) false) ->
  exists output,
    forInArray body i items (Running spread false) = Running output false /\
    forall key, output !! key =
                match indexed i items !! key with
                | Some v1 => Some (value key v1)
                | None => spread !! key
                end.
Proof.
  revert i spread. induction items as [|v rest IH]; intros i spread Hbody; simpl.
  - exists spread. split; [done|]. intros key. by rewrite lookup_empty.
  - pose proof (Hbody 0%nat v spread eq_refl) as Hhead.
    rewrite Nat.add_0_r in Hhead. rewrite Hhead.
    destruct (IH (S i) (<[pretty i := value (pretty i) v]> spread)) as (output & Heq & Hlookup).
    { intros j v1 output Hj. specialize (Hbody (S j) v1 output Hj).
      by rewrite Nat.add_succ_r in Hbody. }
    exists output. split; [exact Heq|]. intros key. rewrite Hlookup.
    destruct (decide (pretty i = key)) as [<-|Hne].
    + rewrite indexed_below by lia. by rewrite !lookup_insert_eq.
    + by rewrite !lookup_insert_ne.
Qed.
End Loops.

Lemma indexed_entry (items : list JsValue) (i : nat) (key : string) (v : JsValue) :
  indexed i items !! key = Some v ->
  exists j, key = pretty (i + j)%nat /\ items !! j = Some v.
Proof.
  revert i. induction items as [|x rest IH]; intros i; simpl.
  - by rewrite lookup_empty.
  - destruct (decide (pretty i = key)) as [<-|Hne].
    + rewrite lookup_insert_eq. intros [= <-]. exists 0%nat. by rewrite Nat.add_0_r.
    + rewrite lookup_insert_ne by done. intros Hk.
      destruct (IH _ Hk) as (j & -> & Hj). exists (S j).
      by rewrite Nat.add_succ_r.
Qed.

Lemma indexed_at (items : list JsValue) (i j : nat) :
  indexed i items !! pretty (i + j)%nat = items !! j.
Proof.
  revert i j. induction items as [|x rest IH]; intros i j; simpl.
  - by rewrite lookup_empty.
  - destruct j as [|j].
    + by rewrite Nat.add_0_r, lookup_insert_eq.
    + rewrite lookup_insert_ne.
      * rewrite <-Nat.add_succ_comm. apply IH.
      * intros Heq. apply (inj pretty) in Heq. lia.
Qed.

Lemma codeUnits_not_object (s : string) (j : nat) (v : JsValue) :
  codeUnits s !! j = Some v -> isObject v = false.
Proof.
  revert j. induction s as [|c rest IH]; intros [|j]; simpl; try done.
  - by intros [= <-].
  - apply IH.
Qed.

Lemma objectAt_not_nullish (obj2 inner : Operand) (key : string) :
  objectAt obj2 key = Some inner -> nullishOperand inner = false.
Proof.
  destruct obj2 as [v|above]; simpl.
  - destruct (ownProps v !! key) as [v2|].
    + destruct v2; simpl; try done; by intros [= <-].
    + case_bool_decide; [|done]. destruct v; simpl; try done; by intros [= <-].
  - case_bool_decide; [|done]. destruct above; [done|]. by intros [= <-].
Qed.

(** Key by key, the merge of an [obj1] of ordinary keys into a non-nullish
    [obj2]. *)
Lemma deepMergeObjects_lookup (obj1 : JsValue) :
  OrdinaryKeys obj1 ->
  forall obj2, nullishOperand obj2 = false ->
  exists output,
    deepMergeObjects obj1 obj2 = Returns (JsObject output) /\
    forall key,
      match ownProps obj1 !! key with
      | Some v1 => exists merged, mergedAt obj2 key v1 = Returns merged /\
                                  output !! key = Some merged
      | None => output !! key = spreadOf obj2 !! key
      end.
Proof.
  induction 1 as [v Hleaf|items Hitems IH|props Hhas Hproto Hprops IH];
    intros obj2 Hnull; rewrite deepMergeObjects_unfold, Hnull.
  - destruct v as [| |b|n|s|items|props]; try done.
    1-4: exists (spreadOf obj2); split; [done|]; intros key; simpl; by rewrite lookup_empty.
    set (body := fun (key : string) (v1 : JsValue) (state : Loop) =>
                   match state with
                   | Aborted => Aborted
                   | Running output reparented => assignTo key v1 output reparented
                   end).
    destruct (forIn_object_lookup (fun _ v1 => v1) body (spreadOf obj2)
                (ownProps (JsString s))) as (output & Heq & Hlookup).
    { intros key v1 output Hk. apply indexed_entry in Hk as (j & -> & _).
      apply assignTo_ordinary, index_not_proto. }
    exists output. rewrite Heq. split; [done|]. intros key. rewrite Hlookup.
    destruct (ownProps (JsString s) !! key) as [v1|] eqn:Hk; [|done].
    exists v1. split; [|done].
    apply indexed_entry in Hk as (j & _ & Hj).
    unfold mergedAt. by rewrite (codeUnits_not_object _ _ _ Hj).
  - set (value := fun (key : string) (v1 : JsValue) =>
                    match mergedAt obj2 key v1 with Returns m => m | _ => JsUndefined end).
    assert (Hmerged : forall j v1, items !! j = Some v1 ->
              forall key, mergedAt obj2 key v1 = Returns (value key v1)).
    { intros j v1 Hj key. unfold value, mergedAt.
      destruct (isObject v1); [|done].
      destruct (objectAt obj2 key) as [inner|] eqn:Hat; [|done].
      destruct (IH j v1 Hj inner (objectAt_not_nullish _ _ _ Hat)) as (out & -> & _).
      done. }
    destruct (forIn_array_lookup value (assignStep obj2) items 0 (spreadOf obj2))
      as (output & Heq & Hlookup).
    { intros j v1 output Hj. unfold assignStep. rewrite (Hmerged j v1 Hj).
      apply assignTo_ordinary, index_not_proto. }
    exists output. rewrite Heq. split; [done|]. intros key. rewrite Hlookup. simpl.
    destruct (indexed 0 items !! key) as [v1|] eqn:Hk; [|done].
    exists (value key v1). split; [|done].
    apply indexed_entry in Hk as (j & _ & Hj). by apply (Hmerged j).
  - rewrite bool_decide_eq_true_2 by done.
    set (value := fun (key : string) (v1 : JsValue) =>
                    match mergedAt obj2 key v1 with Returns m => m | _ => JsUndefined end).
    assert (Hmerged : forall k v1, props !! k = Some v1 ->
              forall key, mergedAt obj2 key v1 = Returns (value key v1)).
    { intros k v1 Hk key. unfold value, mergedAt.
      destruct (isObject v1); [|done].
      destruct (objectAt obj2 key) as [inner|] eqn:Hat; [|done].
      destruct (IH k v1 Hk inner (objectAt_not_nullish _ _ _ Hat)) as (out & -> & _).
      done. }
    destruct (forIn_object_lookup value (assignStep obj2) (spreadOf obj2) props)
      as (output & Heq & Hlookup).
    { intros key v1 output Hk. unfold assignStep. rewrite (Hmerged key v1 Hk).
      apply assignTo_ordinary. intros ->. congruence. }
    exists output. rewrite Heq. split; [done|]. intros key. rewrite Hlookup. simpl.
    destruct (props !! key) as [v1|] eqn:Hk; [|done].
    exists (value key v1). split; [|done]. by apply (Hmerged key).
Qed.

Lemma OrdinaryKeys_no_proto (obj1 : JsValue) :
  OrdinaryKeys obj1 -> ownProps obj1 !! "__proto__" = None.
Proof.
  intros [v Hleaf|items _|props _ Hproto _]; simpl; [|idtac|done].
  - destruct v as [| |b|n|s|items|props]; try done; simpl.
    destruct (indexed 0 (codeUnits s) !! "__proto__") as [v|] eqn:Hk; [|done].
    apply indexed_entry in Hk as (idx & Hidx & _). by apply eq_sym, index_not_proto in Hidx.
  - destruct (indexed 0 items !! "__proto__") as [v|] eqn:Hk; [|done].
    apply indexed_entry in Hk as (idx & Hidx & _). by apply eq_sym, index_not_proto in Hidx.
Qed.

Lemma OrdinaryKeys_prop (obj1 v1 : JsValue) (key : string) :
  OrdinaryKeys obj1 -> ownProps obj1 !! key = Some v1 -> OrdinaryKeys v1.
Proof.
  intros [v Hleaf|items Hitems|props _ _ Hprops]; simpl.
  - destruct v as [| |b|n|s|items|props]; try done; simpl.
    intros (j & _ & Hj)%indexed_entry. apply ordinary_leaf.
    by apply (codeUnits_not_object _ _ _ Hj).
  - intros (j & _ & Hj)%indexed_entry. by apply (Hitems j).
  - apply Hprops.
Qed.

(** What the loop assigns at an ordinary key, from what the two sides hold
    there. *)
Lemma mergedAt_ordinary (obj2 v1 : JsValue) (key : string) :
  key <> "__proto__" ->
  mergedAt (Value obj2) key v1 =
  match ownProps obj2 !! key with
  | Some v2 => if isObject v1 && isObject v2 then deepMergeObjects v1 (Value v2) else Returns v1
  | None => Returns v1
  end.
Proof.
  intros Hkey. unfold mergedAt, objectAt.
  destruct (ownProps obj2 !! key) as [v2|].
  - by destruct (isObject v1), (isObject v2).
  - rewrite bool_decide_eq_false_2 by done. by destruct (isObject v1).
Qed.




End JsFacts.

(* ===================================================================== *)
(** ** Properties of the image model *)
(* ===================================================================== *)

Module ImageModelFacts.
Import Js ImageModel.

(** C8.  The claim fails on the schema: [ImageSchema] declares
    [transformationTypes] as one [String], while the [ImageModel] interface
    of the same file declares [string[]].  Nor is any record persisted
    through this module: [new Schema] throws on the path
    [transformationUrl], whose [type: URL] is not a schema type, so that
    neither [ImageSchema] nor the model [Image] is ever defined. *)
Theorem transformationTypes_declared_String_in_a_schema_that_throws :
  type <$> schemaPath "transformationTypes" imageSchemaDefinition = Some String_ /\
  memberType <$> interfaceMember "transformationTypes" ImageModel = Some (TsArray TsString) /\
  ImageSchema = Throws (InvalidSchemaConfiguration URL_ "transformationUrl") /\
  Image = Throws (InvalidSchemaConfiguration URL_ "transformationUrl").
Proof. repeat split. Qed.
End ImageModelFacts.

(* ===================================================================== *)
(** ** Properties of the user ledger *)
(* ===================================================================== *)

Module LedgerFacts.
Import Js Ledger.
#[local] Open Scope list_scope.
#[local] Open Scope prog_scope.

(** Walks through the store calls of an action. *)
Ltac calls_only :=
  simpl; repeat first [done | split | intros [?|] | intro | progress simpl].

(** *** The actions on small inputs *)

Example createUser_on_an_empty_store :
  fst (run (createUser sampleUser) (initial [])) = Resolves (Json (newDocument 0%N sampleUser)).
Proof. reflexivity. Qed.

Example createUser_twice :
  fst (run (createUser sampleUser) sampleWorld)
  = Rejects (ErrorInstance "Error: E11000 duplicate key error").
Proof. reflexivity. Qed.

Example getUserById_of_nobody :
  run (getUserById "user_2b") (initial [])
  = (Rejects (ErrorInstance "Error: User not found"),
     mkWorld [] 0%N true 1 [] ["User not found"] []
       [called connectToDatabase; called (User_findOne "user_2b")]).
Proof. reflexivity. Qed.

Example updateUser_after_deleteUser :
  fst (run (updateUser "user_2b" sampleRename) (snd (run (deleteUser "user_2b") sampleWorld)))
  = Rejects (ErrorInstance "Error: User update failed").
Proof. reflexivity. Qed.

Example connectToDatabase_fails_with_an_Error :
  run (updateCredits 0%N 5%Z) (initial [Some (ErrorInstance "ECONNREFUSED")])
  = (Rejects (ErrorInstance "Error: ECONNREFUSED"),
     mkWorld [] 0%N false 0 [] ["ECONNREFUSED"] [] [called connectToDatabase]).
Proof. reflexivity. Qed.

(** *** Running composed programs *)

Lemma run_bind {A B : Type} (p : Prog A) (f : A -> Prog B) (w : World) :
  run (bind p f) w =
  match run p w with
  | (Resolves a, w') => run (f a) w'
  | (Rejects t, w') => (Rejects t, w')
  end.
Proof.
  revert w. induction p as [a|t|R call k IHk h IHh|path k IH|line k IH]; intros w; simpl; try done.
  destruct (perform call w) as [[t|r] w']; auto.
Qed.

Lemma run_tryCatch {A : Type} (p : Prog A) (handler : Thrown -> Prog A) (w : World) :
  run (tryCatch p handler) w =
  match run p w with
  | (Resolves a, w') => (Resolves a, w')
  | (Rejects t, w') => run (handler t) w'
  end.
Proof.
  revert w. induction p as [a|t|R call k IHk h IHh|path k IH|line k IH]; intros w; simpl; try done.
  destruct (perform call w) as [[t|r] w']; auto.
Qed.

Lemma run_await {R : Type} (call : StoreCall R) (w : World) :
  run (await call) w =
  match perform call w with
  | (inr r, w') => (Resolves r, w')
  | (inl t, w') => (Rejects t, w')
  end.
Proof. simpl. by destruct (perform call w) as [[t|r] w']. Qed.

(** What the [catch] clause of every action does with what it caught. *)
Lemma run_catchClause (err : Thrown) (w : World) :
  run (catchClause err) w =
  match err with
  | ErrorInstance message =>
      (Rejects (ErrorInstance ("Error: " +:+ message)), writeConsole message w)
  | NonError (JsString s) =>
      (Rejects (ErrorInstance ("Unknown error: " +:+ JSON_stringify_string s)),
       writeConsole s w)
  | NonError _ => (Resolves Undefined, w)
  end.
Proof. by destruct err as [message|[| | | |s| |]]. Qed.

(** *** Store calls in a quiet world *)

Lemma quiet_record {R : Type} (call : StoreCall R) (w : World) :
  quiet w -> quiet (record call w).
Proof.
  unfold quiet. simpl. destruct (failures w); simpl; [done|]. by inversion 1.
Qed.

Lemma perform_quiet {R : Type} (call : StoreCall R) (w : World) :
  quiet w -> perform call w = serve call (record call w).
Proof.
  unfold quiet, perform. destruct (failures w) as [|[t|] fs]; try done.
  by inversion 1.
Qed.

Lemma failures_serve {R : Type} (call : StoreCall R) (w : World) :
  failures (snd (serve call w)) = failures w.
Proof.
  destruct call; simpl; unfold connect, insert; repeat case_match; done.
Qed.

Lemma quiet_serve {R : Type} (call : StoreCall R) (w : World) :
  quiet w -> quiet (snd (serve call w)).
Proof. unfold quiet. by rewrite failures_serve. Qed.


Lemma perform_connect (w : World) :
  quiet w -> perform connectToDatabase w = (inr tt, afterConnect w).
Proof.
  intros Hq. by rewrite perform_quiet.
Qed.

Lemma afterConnect_data (w : World) :
  users (afterConnect w) = users w /\ nextId (afterConnect w) = nextId w /\
  console (afterConnect w) = console w /\ revalidated (afterConnect w) = revalidated w /\
  trace (afterConnect w) = trace w ++ [called connectToDatabase] /\
  failures (afterConnect w) = tail (failures w).
Proof. unfold afterConnect, connect. simpl. by destruct (connected w). Qed.

Lemma quiet_afterConnect (w : World) : quiet w -> quiet (afterConnect w).
Proof. intros Hq. apply (quiet_serve connectToDatabase), quiet_record, Hq. Qed.

(** *** The first matching document *)

Lemma findFirst_split (f : Filter) (docs : list User.t) (u : User.t) :
  findFirst f docs = Some u ->
  exists l1 l2, docs = l1 ++ u :: l2 /\ Forall (fun x => matches f x = false) l1 /\
                matches f u = true.
Proof.
  unfold findFirst. induction docs as [|x rest IH]; simpl; [done|].
  destruct (matches f x) eqn:Hx.
  - intros [= ->]. exists [], rest. by repeat split.
  - intros Hfind. destruct (IH Hfind) as (l1 & l2 & -> & Hl1 & Hu).
    exists (x :: l1), l2. repeat split; [|done]. by constructor.
Qed.

Lemma findFirst_app (f : Filter) (l1 l2 : list User.t) (u : User.t) :
  Forall (fun x => matches f x = false) l1 -> matches f u = true ->
  findFirst f (l1 ++ u :: l2) = Some u.
Proof.
  unfold findFirst. induction 1 as [|x l1 Hx _ IH]; simpl; intros Hu.
  - by rewrite Hu.
  - rewrite Hx. by apply IH.
Qed.

Lemma findFirst_None (f : Filter) (docs : list User.t) :
  findFirst f docs = None <-> Forall (fun x => matches f x = false) docs.
Proof.
  unfold findFirst. induction docs as [|x rest IH]; simpl.
  - split; [constructor|done].
  - destruct (matches f x) eqn:Hx.
    + split; [done|]. inversion 1; congruence.
    + rewrite IH. split; [by constructor|by inversion 1].
Qed.

Lemma updateFirst_app (f : Filter) (g : User.t -> User.t) (l1 l2 : list User.t) (u : User.t) :
  Forall (fun x => matches f x = false) l1 -> matches f u = true ->
  updateFirst f g (l1 ++ u :: l2) = Some (g u, l1 ++ g u :: l2).
Proof.
  induction 1 as [|x l1 Hx _ IH]; simpl; intros Hu.
  - by rewrite Hu.
  - rewrite Hx. by rewrite IH.
Qed.

Lemma updateFirst_None (f : Filter) (g : User.t -> User.t) (docs : list User.t) :
  findFirst f docs = None -> updateFirst f g docs = None.
Proof.
  unfold findFirst. induction docs as [|x rest IH]; simpl; [done|].
  destruct (matches f x); [done|]. intros Hn. by rewrite IH.
Qed.

Lemma removeFirst_app (f : Filter) (l1 l2 : list User.t) (u : User.t) :
  Forall (fun x => matches f x = false) l1 -> matches f u = true ->
  removeFirst f (l1 ++ u :: l2) = Some (u, l1 ++ l2).
Proof.
  induction 1 as [|x l1 Hx _ IH]; simpl; intros Hu.
  - by rewrite Hu.
  - rewrite Hx. by rewrite IH.
Qed.

Lemma removeFirst_None (f : Filter) (docs : list User.t) :
  findFirst f docs = None -> removeFirst f docs = None.
Proof.
  unfold findFirst. induction docs as [|x rest IH]; simpl; [done|].
  destruct (matches f x); [done|]. intros Hn. by rewrite IH.
Qed.

(** *** The actions in a quiet world *)

Lemma run_updateCredits_quiet (userId : ObjectId) (creditFee : Z) (w : World) :
  quiet w ->
  run (updateCredits userId creditFee) w =
  let call := User_findOneAndUpdate (ById userId) (Inc_creditBalance creditFee) in
  let w2 := record call (afterConnect w) in
  match updateFirst (ById userId) (incCreditBalance creditFee) (users w) with
  | Some (doc, us) => (Resolves (Json doc), setUsers w2 us (nextId w))
  | None =>
      (Rejects (ErrorInstance "Error: User credits update failed"),
       writeConsole "User credits update failed" w2)
  end.
Proof.
  intros Hq. unfold updateCredits.
  rewrite run_tryCatch, run_bind, run_await, perform_connect by done.
  rewrite run_bind, run_await, perform_quiet by by apply quiet_afterConnect.
  destruct (afterConnect_data w) as (Hu & Hn & _).
  simpl. rewrite Hu, Hn.
  by destruct (updateFirst _ _ (users w)) as [[doc us]|].
Qed.


Lemma run_createUser_quiet (user : CreateUserParams.t) (w : World) :
  quiet w ->
  run (createUser user) w =
  let w2 := record (User_create user) (afterConnect w) in
  if existsb (matches (ByClerkId (CreateUserParams.clerkId user))) (users w)
  then (Rejects (ErrorInstance ("Error: " +:+ duplicateKey)), writeConsole duplicateKey w2)
  else (Resolves (Json (newDocument (nextId w) user)),
        setUsers w2 (users w ++ [newDocument (nextId w) user]) (N.succ (nextId w))).
Proof.
  intros Hq. unfold createUser.
  rewrite run_tryCatch, run_bind, run_await, perform_connect by done.
  rewrite run_bind, run_await, perform_quiet by by apply quiet_afterConnect.
  destruct (afterConnect_data w) as (Hu & Hn & _).
  simpl. unfold insert. simpl. rewrite Hu, Hn.
  by destruct (existsb _ (users w)).
Qed.

Lemma run_getUserById_quiet (userId : string) (w : World) :
  quiet w ->
  run (getUserById userId) w =
  let w2 := record (User_findOne userId) (afterConnect w) in
  match findFirst (ByClerkId userId) (users w) with
  | Some user => (Resolves (Json user), w2)
  | None => (Rejects (ErrorInstance "Error: User not found"), writeConsole "User not found" w2)
  end.
Proof.
  intros Hq. unfold getUserById.
  rewrite run_tryCatch, run_bind, run_await, perform_connect by done.
  rewrite run_bind, run_await, perform_quiet by by apply quiet_afterConnect.
  destruct (afterConnect_data w) as (Hu & Hn & _).
  simpl. rewrite Hu.
  by destruct (findFirst _ (users w)).
Qed.

Lemma run_updateUser_quiet (clerkId : string) (user : UpdateUserParams.t) (w : World) :
  quiet w ->
  run (updateUser clerkId user) w =
  let w2 := record (User_findOneAndUpdate (ByClerkId clerkId) (Fields user)) (afterConnect w) in
  match updateFirst (ByClerkId clerkId) (setFields user) (users w) with
  | Some (doc, us) => (Resolves (Json doc), setUsers w2 us (nextId w))
  | None =>
      (Rejects (ErrorInstance "Error: User update failed"),
       writeConsole "User update failed" w2)
  end.
Proof.
  intros Hq. unfold updateUser.
  rewrite run_tryCatch, run_bind, run_await, perform_connect by done.
  rewrite run_bind, run_await, perform_quiet by by apply quiet_afterConnect.
  destruct (afterConnect_data w) as (Hu & Hn & _).
  simpl. rewrite Hu, Hn.
  by destruct (updateFirst _ _ (users w)) as [[doc us]|].
Qed.

Lemma run_deleteUser_quiet (clerkId : string) (w : World) :
  quiet w ->
  run (deleteUser clerkId) w =
  let w2 := record (User_findOneAndDelete clerkId) (afterConnect w) in
  match removeFirst (ByClerkId clerkId) (users w) with
  | None => (Rejects (ErrorInstance "Error: User not found"), writeConsole "User not found" w2)
  | Some (found, us) =>
      let w3 := record (User_findByIdAndDelete (User._id found)) (setUsers w2 us (nextId w)) in
      match removeFirst (ById (User._id found)) us with
      | Some (deleted, us') =>
          (Resolves (Json deleted), markRevalidated "/" (setUsers w3 us' (nextId w)))
      | None => (Resolves Null, markRevalidated "/" w3)
      end
  end.
Proof.
  intros Hq. unfold deleteUser.
  rewrite run_tryCatch, run_bind, run_await, perform_connect by done.
  rewrite run_bind, run_await, perform_quiet by by apply quiet_afterConnect.
  destruct (afterConnect_data w) as (Hu & Hn & _).
  pose proof (quiet_afterConnect w Hq) as Hq1.
  simpl. rewrite Hu, Hn.
  destruct (removeFirst _ (users w)) as [[found us]|]; [|done].
  simpl.
  assert (Hq2 : quiet (setUsers (record (User_findOneAndDelete clerkId) (afterConnect w)) us (nextId w))).
  { by apply (quiet_record (User_findOneAndDelete clerkId)) in Hq1. }
  rewrite (perform_quiet _ _ Hq2). simpl.
  by destruct (removeFirst _ us) as [[deleted us']|].
Qed.


Lemma incCreditBalance_frame (creditFee : Z) (u : User.t) (f : Field) :
  f <> FcreditBalance -> readField f (incCreditBalance creditFee u) = readField f u.
Proof. by destruct f. Qed.

Lemma matches_incCreditBalance (f : Filter) (creditFee : Z) (u : User.t) :
  matches f (incCreditBalance creditFee u) = matches f u.
Proof. by destruct f. Qed.

Lemma matches_setFields (f : Filter) (p : UpdateUserParams.t) (u : User.t) :
  matches f (setFields p u) = matches f u.
Proof. by destruct f. Qed.

Lemma isSafeInteger_bounds (n : Z) :
  isSafeInteger n = true <-> (- 9007199254740991 <= n <= 9007199254740991)%Z.
Proof. unfold isSafeInteger, MAX_SAFE_INTEGER. lia. Qed.

(** A sum that is a safe integer is exact. *)
Lemma addDoubles_safe (a b : Z) :
  isSafeInteger (a + b) = true -> addDoubles a b = (a + b)%Z.
Proof.
  intros Hsafe%isSafeInteger_bounds. unfold addDoubles, roundToDouble, MAX_SAFE_INTEGER.
  destruct (Z.leb_spec (Z.abs (a + b)) (9007199254740991 + 1)); [done|lia].
Qed.

(** C1, amended.  [updateCredits(userId, creditFee)] makes one data call, a
    [findOneAndUpdate] by primary key with [$inc] (no read comes before it);
    when no record has that key it rejects with the normalized error
    "Error: User credits update failed" and writes nothing; otherwise it
    resolves with the stored record after the update, every field but
    [creditBalance] as before, and [creditBalance] the earlier balance plus
    [creditFee] whenever the earlier balance, [creditFee] and their sum are
    safe integers. *)
Theorem updateCredits_single_increment (userId : ObjectId) (creditFee : Z) (w : World) :
  quiet w ->
  let '(outcome, w') := run (updateCredits userId creditFee) w in
  trace w' =
    trace w ++ [called connectToDatabase;
                called (User_findOneAndUpdate (ById userId) (Inc_creditBalance creditFee))] /\
  match findFirst (ById userId) (users w) with
  | None =>
      outcome = Rejects (ErrorInstance "Error: User credits update failed") /\
      users w' = users w
  | Some before =>
      exists after,
        outcome = Resolves (Json after) /\
        findFirst (ById userId) (users w') = Some after /\
        (allSafe [User.creditBalance before; creditFee;
                  (User.creditBalance before + creditFee)%Z] = true ->
         User.creditBalance after = (User.creditBalance before + creditFee)%Z) /\
        forall f, f <> FcreditBalance -> readField f after = readField f before
  end.
Proof.
  intros Hq. rewrite run_updateCredits_quiet by done. cbv zeta.
  destruct (afterConnect_data w) as (Hu & _ & _ & _ & Htr & _).
  destruct (findFirst (ById userId) (users w)) as [before|] eqn:Hfind.
  - destruct (findFirst_split _ _ _ Hfind) as (l1 & l2 & Hsplit & Hl1 & Hm).
    rewrite Hsplit, (updateFirst_app _ _ _ _ _ Hl1 Hm). simpl. split.
    + by rewrite Htr, <- app_assoc.
    + exists (incCreditBalance creditFee before). repeat split.
      * apply findFirst_app; [done|]. by rewrite matches_incCreditBalance.
      * intros Hsafe. simpl. apply addDoubles_safe.
        by apply andb_true_iff in Hsafe as (_ & (_ & (Hsum & _)%andb_true_iff)%andb_true_iff).
      * intros f Hf. by apply incCreditBalance_frame.
  - rewrite (updateFirst_None _ _ _ Hfind). simpl. split; [|by rewrite Hu].
    by rewrite Htr, <- app_assoc.
Qed.


(** *** Invariants of runs *)

(** What every store call and every synchronous call preserves, every run
    preserves. *)
Lemma run_invariant {A : Type} (P : World -> Prop) (p : Prog A) :
  (forall R (call : StoreCall R) w, P w -> P (snd (perform call w))) ->
  (forall line w, P w -> P (writeConsole line w)) ->
  (forall path w, P w -> P (markRevalidated path w)) ->
  forall w, P w -> P (snd (run p w)).
Proof.
  intros Hperform Hconsole Hpath.
  induction p as [a|t|R call k IHk h IHh|path k IH|line k IH]; intros w Hw; simpl; auto.
  specialize (Hperform R call w Hw).
  destruct (perform call w) as [[t|r] w']; simpl in Hperform; auto.
Qed.

Lemma quiet_perform {R : Type} (call : StoreCall R) (w : World) :
  quiet w -> quiet (snd (perform call w)).
Proof.
  intros Hq. rewrite perform_quiet by done. by apply quiet_serve, quiet_record.
Qed.

Lemma quiet_run {A : Type} (p : Prog A) (w : World) :
  quiet w -> quiet (snd (run p w)).
Proof.
  apply (run_invariant quiet); [intros; by apply quiet_perform|done|done].
Qed.

Lemma existsb_matches_false (f : Filter) (docs : list User.t) :
  existsb (matches f) docs = false <-> findFirst f docs = None.
Proof.
  rewrite findFirst_None. induction docs as [|x rest IH]; simpl.
  - split; [constructor|done].
  - rewrite orb_false_iff, IH. split.
    + intros [? ?]. by constructor.
    + by inversion 1.
Qed.

Lemma findFirst_fresh (f : Filter) (docs : list User.t) (u : User.t) :
  findFirst f docs = None -> matches f u = true -> findFirst f (docs ++ [u]) = Some u.
Proof. intros Hn Hu. apply findFirst_app; [by apply findFirst_None|done]. Qed.

(** C6.  For a creation input whose [clerkId] is not taken,
    [getUserById(clerkId)] right after [createUser(user)] resolves with the
    record [createUser] resolved with: the input's fields, the balance
    included, under the primary key the database assigned. *)
Theorem getUserById_after_createUser (user : CreateUserParams.t) (w : World) :
  quiet w ->
  findFirst (ByClerkId (CreateUserParams.clerkId user)) (users w) = None ->
  let '(created, w1) := run (createUser user) w in
  let '(fetched, w2) := run (getUserById (CreateUserParams.clerkId user)) w1 in
  exists doc,
    created = Resolves (Json doc) /\
    fetched = Resolves (Json doc) /\
    creationFields doc = user /\
    User._id doc = nextId w /\
    users w2 = users w ++ [doc].
Proof.
  intros Hq Hfree.
  pose proof (quiet_run (createUser user) w Hq) as Hq1.
  rewrite run_createUser_quiet in Hq1 |- * by done. cbv zeta in Hq1 |- *.
  apply existsb_matches_false in Hfree as Hex. rewrite Hex in Hq1 |- *. simpl in Hq1.
  rewrite run_getUserById_quiet by done. cbv zeta.
  destruct (afterConnect_data
              (setUsers (record (User_create user) (afterConnect w))
                 (users w ++ [newDocument (nextId w) user]) (N.succ (nextId w))))
    as (Hu & _).
  simpl in Hu |- *.
  rewrite (findFirst_fresh _ _ (newDocument (nextId w) user) Hfree);
    [|simpl; by apply bool_decide_eq_true].
  exists (newDocument (nextId w) user). simpl. repeat split; try done.
  by destruct user.
Qed.


(** *** Chaining actions *)

Lemma createUser_applies (user : CreateUserParams.t) (w : World) :
  quiet w ->
  findFirst (ByClerkId (CreateUserParams.clerkId user)) (users w) = None ->
  exists w',
    run (createUser user) w = (Resolves (Json (newDocument (nextId w) user)), w') /\
    quiet w' /\
    users w' = users w ++ [newDocument (nextId w) user] /\
    nextId w' = N.succ (nextId w).
Proof.
  intros Hq Hfree.
  pose proof (quiet_run (createUser user) w Hq) as Hq1.
  rewrite run_createUser_quiet in Hq1 |- * by done. cbv zeta in Hq1 |- *.
  apply existsb_matches_false in Hfree. rewrite Hfree in Hq1 |- *.
  eexists. split; [reflexivity|]. by repeat split.
Qed.

Lemma updateCredits_applies (userId : ObjectId) (creditFee : Z) (w : World) (before : User.t) :
  quiet w ->
  findFirst (ById userId) (users w) = Some before ->
  exists w',
    run (updateCredits userId creditFee) w =
      (Resolves (Json (incCreditBalance creditFee before)), w') /\
    quiet w' /\
    findFirst (ById userId) (users w') = Some (incCreditBalance creditFee before).
Proof.
  intros Hq Hfind.
  pose proof (quiet_run (updateCredits userId creditFee) w Hq) as Hq1.
  rewrite run_updateCredits_quiet in Hq1 |- * by done. cbv zeta in Hq1 |- *.
  destruct (findFirst_split _ _ _ Hfind) as (l1 & l2 & Hsplit & Hl1 & Hm).
  rewrite Hsplit, (updateFirst_app _ _ _ _ _ Hl1 Hm) in Hq1 |- *.
  eexists. split; [reflexivity|]. split; [done|]. simpl.
  apply findFirst_app; [done|]. by rewrite matches_incCreditBalance.
Qed.

Lemma nextId_unused (w : World) :
  wellFormed w -> findFirst (ById (nextId w)) (users w) = None.
Proof.
  intros (_ & _ & Hlt). apply findFirst_None.
  eapply Forall_impl; [exact Hlt|]. intros u Hu. simpl.
  apply bool_decide_eq_false. unfold ObjectId in *. lia.
Qed.

(** C9.  [updateCredits] applies the integer it is given, and nothing keeps
    the balance from going below zero: for a user created with
    [creditBalance] 10, [updateCredits(id, -3)] resolves with balance 7, and
    [updateCredits(id, -100)] after it resolves with balance -93, which is
    also what the store then holds. *)
Theorem updateCredits_no_floor (user : CreateUserParams.t) (w : World) :
  quiet w -> wellFormed w ->
  findFirst (ByClerkId (CreateUserParams.clerkId user)) (users w) = None ->
  CreateUserParams.creditBalance user = 10%Z ->
  let id := nextId w in
  let '(created, w1) := run (createUser user) w in
  let '(first, w2) := run (updateCredits id (-3)) w1 in
  let '(second, w3) := run (updateCredits id (-100)) w2 in
  exists doc1 doc2 doc3,
    created = Resolves (Json doc1) /\ User._id doc1 = id /\ User.creditBalance doc1 = 10%Z /\
    first = Resolves (Json doc2) /\ User.creditBalance doc2 = 7%Z /\
    second = Resolves (Json doc3) /\ User.creditBalance doc3 = (-93)%Z /\
    balanceOf id w3 = Some (-93)%Z.
Proof.
  intros Hq Hwf Hfree Hten id.
  destruct (createUser_applies user w Hq Hfree) as (w1 & -> & Hq1 & Hu1 & _).
  assert (Hfind1 : findFirst (ById id) (users w1) = Some (newDocument id user)).
  { rewrite Hu1. apply findFirst_fresh; [by apply nextId_unused|].
    simpl. by apply bool_decide_eq_true. }
  destruct (updateCredits_applies id (-3) w1 _ Hq1 Hfind1) as (w2 & -> & Hq2 & Hfind2).
  destruct (updateCredits_applies id (-100) w2 _ Hq2 Hfind2) as (w3 & -> & Hq3 & Hfind3).
  eexists _, _, _. repeat split; try reflexivity.
  - simpl. exact Hten.
  - simpl. by rewrite Hten.
  - simpl. by rewrite Hten.
  - unfold balanceOf. rewrite Hfind3. simpl. by rewrite Hten.
Qed.


Lemma setFields_fields (p : UpdateUserParams.t) (u : User.t) (f : Field) :
  readField f (setFields p u) = default (readField f u) (named p f).
Proof.
  destruct p as [e un ph fn ln pl cb si sc].
  destruct f; simpl; try done;
    match goal with |- context [default _ ?o] => by destruct o end.
Qed.

(** C5.  For a stored user, [updateUser(clerkId, user)] resolves with the
    record as stored after the update, in which each field that [user]
    names holds the value [user] gives and every other field is as it was. *)
Theorem updateUser_replaces_named_fields
    (clerkId : string) (user : UpdateUserParams.t) (w : World) (before : User.t) :
  quiet w ->
  findFirst (ByClerkId clerkId) (users w) = Some before ->
  let '(outcome, w') := run (updateUser clerkId user) w in
  exists after,
    outcome = Resolves (Json after) /\
    findFirst (ByClerkId clerkId) (users w') = Some after /\
    forall f,
      readField f after =
      match named user f with
      | Some value => value
      | None => readField f before
      end.
Proof.
  intros Hq Hfind. rewrite run_updateUser_quiet by done. cbv zeta.
  destruct (findFirst_split _ _ _ Hfind) as (l1 & l2 & Hsplit & Hl1 & Hm).
  rewrite Hsplit, (updateFirst_app _ _ _ _ _ Hl1 Hm).
  exists (setFields user before). repeat split.
  - simpl. apply findFirst_app; [done|]. by rewrite matches_setFields.
  - intros f. rewrite setFields_fields. by destruct (named user f).
Qed.

Lemma unique_key_absent {K : Type} (key : User.t -> K) (l1 l2 : list User.t) (u : User.t) :
  NoDup (key <$> (l1 ++ u :: l2)) -> Forall (fun x => key x <> key u) (l1 ++ l2).
Proof.
  rewrite fmap_app, fmap_cons. intros Hnd.
  apply NoDup_app in Hnd as (_ & Hdisj & Hnd2). apply NoDup_cons in Hnd2 as (Hu & _).
  apply Forall_app. split; apply Forall_forall; intros x Hx Heq.
  - apply (Hdisj (key x)); [by apply list_elem_of_fmap_2|]. rewrite Heq. by left.
  - apply Hu. rewrite <- Heq. by apply list_elem_of_fmap_2.
Qed.

(** C3.  In a store whose primary keys are unique, [deleteUser(clerkId)] of
    a stored user removes the record in [findOneAndDelete]; the
    [findByIdAndDelete] that follows finds nothing, and the action resolves
    with [null]. *)
Theorem deleteUser_resolves_null (clerkId : string) (w : World) (found : User.t) :
  quiet w -> wellFormed w ->
  findFirst (ByClerkId clerkId) (users w) = Some found ->
  let '(outcome, w') := run (deleteUser clerkId) w in
  outcome = Resolves Null /\
  findFirst (ByClerkId clerkId) (users w') = None /\
  findFirst (ById (User._id found)) (users w') = None /\
  revalidated w' = revalidated w ++ ["/"].
Proof.
  intros Hq (Hids & Hclerks & _) Hfind. rewrite run_deleteUser_quiet by done. cbv zeta.
  destruct (findFirst_split _ _ _ Hfind) as (l1 & l2 & Hsplit & Hl1 & Hm).
  rewrite Hsplit in Hids, Hclerks |- *. rewrite (removeFirst_app _ _ _ _ Hl1 Hm).
  assert (Hgone : findFirst (ById (User._id found)) (l1 ++ l2) = None).
  { apply findFirst_None. eapply Forall_impl; [exact (unique_key_absent _ _ _ _ Hids)|].
    intros x Hx. simpl. by apply bool_decide_eq_false. }
  rewrite (removeFirst_None _ _ Hgone).
  destruct (afterConnect_data w) as (_ & _ & _ & Hrev & _).
  simpl. repeat split; [|done|by rewrite Hrev].
  apply findFirst_None. eapply Forall_impl; [exact (unique_key_absent _ _ _ _ Hclerks)|].
  intros x Hx. simpl. apply bool_decide_eq_false.
  simpl in Hm. apply bool_decide_eq_true in Hm. congruence.
Qed.

Lemma deleteUser_not_found (clerkId : string) (w : World) :
  quiet w ->
  findFirst (ByClerkId clerkId) (users w) = None ->
  fst (run (deleteUser clerkId) w) = Rejects (ErrorInstance "Error: User not found") /\
  users (snd (run (deleteUser clerkId) w)) = users w.
Proof.
  intros Hq Hnone. rewrite run_deleteUser_quiet by done. cbv zeta.
  rewrite (removeFirst_None _ _ Hnone). simpl.
  by destruct (afterConnect_data w) as (-> & _).
Qed.


(** *** Failures at the operation boundary *)

(** Every action is a [try] block around a body that lets failures escape,
    with the one [catch] clause. *)
Lemma action_shape (op : Operation) :
  exists body, action op = tryCatch body catchClause /\ propagates body.
Proof.
  destruct op; eexists; (split; [reflexivity|]); simpl; repeat split; try done.
  all: intros [u|]; simpl; repeat split; done.
Qed.

Lemma perform_raises {R : Type} (call : StoreCall R) (w : World) (t : Thrown)
      (rest : list (option Thrown)) :
  failures w = Some t :: rest -> perform call w = (inl t, record call w).
Proof. unfold perform. by intros ->. Qed.

Lemma serve_console {R : Type} (call : StoreCall R) (w : World) :
  console (snd (serve call w)) = console w.
Proof. destruct call; simpl; unfold connect, insert; repeat case_match; done. Qed.

Lemma perform_failures {R : Type} (call : StoreCall R) (w : World) :
  failures (snd (perform call w)) = tail (failures w).
Proof.
  unfold perform. destruct (failures w) as [|[t|] fs] eqn:Hf; simpl;
    rewrite ?failures_serve; simpl; by rewrite ?Hf.
Qed.

Lemma perform_console {R : Type} (call : StoreCall R) (w : World) :
  console (snd (perform call w)) = console w.
Proof.
  unfold perform. destruct (failures w) as [|[t|] fs]; simpl;
    by rewrite ?serve_console.
Qed.

Lemma run_failures_length {A : Type} (p : Prog A) (w : World) :
  (length (failures (snd (run p w))) <= length (failures w))%nat.
Proof.
  revert w. induction p as [a|t|R call k IHk h IHh|path k IH|line k IH]; intros w; simpl.
  - done.
  - done.
  - pose proof (perform_failures call w) as Hstep.
    assert (length (tail (failures w)) <= length (failures w))%nat
      by (destruct (failures w); simpl; lia).
    destruct (perform call w) as [[t|r] w']; simpl in Hstep.
    + specialize (IHh t w'). rewrite Hstep in IHh. lia.
    + specialize (IHk r w'). rewrite Hstep in IHk. lia.
  - exact (IH (markRevalidated path w)).
  - exact (IH (writeConsole line w)).
Qed.

(** If the run of a body uses up the failures scheduled up to and including
    the first one that is not [None], the body rejects with that failure. *)
Lemma body_rejects_with_failure {A : Type} (p : Prog A) :
  propagates p ->
  forall (pre : list (option Thrown)) (t : Thrown) (w : World),
    Forall (fun f => f = None) pre ->
    failures w = pre ++ Some t :: failures (snd (run p w)) ->
    fst (run p w) = Rejects t /\ console (snd (run p w)) = console w.
Proof.
  induction p as [a|t0|R call k IHk h IHh|path k IH|line k IH]; simpl; intros Hp pre t w Hpre Hf.
  - apply (f_equal length) in Hf. rewrite length_app in Hf. simpl in Hf. lia.
  - apply (f_equal length) in Hf. rewrite length_app in Hf. simpl in Hf. lia.
  - destruct Hp as [Hh Hk].
    pose proof (perform_failures call w) as Hfail.
    pose proof (perform_console call w) as Hcons.
    destruct pre as [|f pre].
    + rewrite (perform_raises call w t _ Hf) in Hcons |- *. rewrite Hh. simpl. by split.
    + inversion Hpre as [|? ? -> Hpre']; subst.
      destruct (perform call w) as [[t1|r] w'] eqn:Hperf; simpl in Hfail, Hcons.
      * rewrite Hh in Hf. simpl in Hf. rewrite Hf in Hfail. simpl in Hfail.
        apply (f_equal length) in Hfail. rewrite length_app in Hfail. simpl in Hfail. lia.
      * rewrite Hf in Hfail. simpl in Hfail.
        destruct (IHk r (Hk r) pre t w' Hpre' Hfail) as [Ho Hc].
        split; [done|]. by rewrite Hc.
  - exact (IH Hp pre t (markRevalidated path w) Hpre Hf).
  - done.
Qed.

(** What an action does with a failure the store raises while it runs:
    every action, wherever in the action the failure comes. *)
Lemma store_failure_at_boundary (op : Operation) (pre : list (option Thrown))
      (t : Thrown) (w : World) :
  Forall (fun f => f = None) pre ->
  failures w = pre ++ Some t :: failures (snd (run (action op) w)) ->
  match t with
  | ErrorInstance message =>
      fst (run (action op) w) = Rejects (ErrorInstance ("Error: " +:+ message)) /\
      console (snd (run (action op) w)) = console w ++ [message]
  | NonError (JsString s) =>
      fst (run (action op) w) =
        Rejects (ErrorInstance ("Unknown error: " +:+ JSON_stringify_string s)) /\
      console (snd (run (action op) w)) = console w ++ [s]
  | NonError _ =>
      fst (run (action op) w) = Resolves Undefined /\
      console (snd (run (action op) w)) = console w
  end.
Proof.
  intros Hpre. destruct (action_shape op) as (body & -> & Hbody).
  rewrite run_tryCatch. intros Hf.
  assert (Hsame : failures (snd (run (tryCatch body catchClause) w)) = failures (snd (run body w))).
  { rewrite run_tryCatch. destruct (run body w) as [[a|e] w']; [done|].
    rewrite run_catchClause. by destruct e as [m|[| | | |s| |]]. }
  rewrite run_tryCatch in Hsame.
  rewrite Hsame in Hf.
  destruct (body_rejects_with_failure body Hbody pre t w Hpre Hf) as [Ho Hc].
  destruct (run body w) as [o w']. simpl in Ho, Hc. subst o.
  rewrite run_catchClause. rewrite <- Hc.
  by destruct t as [m|[| | | |s| |]].
Qed.


(** C2.  The claim fails where the store raises a value that is neither an
    [Error] nor a string: [handleError] has no branch for it and returns, so
    the action, whichever it is and wherever in it the failure comes,
    resolves with [undefined] and nothing is logged. *)
Theorem store_failure_swallowed (op : Operation) (v : JsValue)
      (pre : list (option Thrown)) (w : World) :
  Forall (fun f => f = None) pre ->
  (forall s, v <> JsString s) ->
  failures w = pre ++ Some (NonError v) :: failures (snd (run (action op) w)) ->
  fst (run (action op) w) = Resolves Undefined /\
  console (snd (run (action op) w)) = console w.
Proof.
  intros Hpre Hv Hf.
  pose proof (store_failure_at_boundary op pre (NonError v) w Hpre Hf) as H.
  destruct v as [| | | |s| |]; try exact H. by destruct (Hv s).
Qed.

(** *** Invariants of the store *)

Lemma run_calls_invariant {A : Type} (Q : forall R : Type, StoreCall R -> Prop)
      (P : World -> Prop) (p : Prog A) :
  (forall R (call : StoreCall R) w, Q R call -> P w -> P (snd (perform call w))) ->
  (forall line w, P w -> P (writeConsole line w)) ->
  (forall path w, P w -> P (markRevalidated path w)) ->
  callsOnly Q p -> forall w, P w -> P (snd (run p w)).
Proof.
  intros Hperform Hconsole Hpath.
  induction p as [a|t|R call k IHk h IHh|path k IH|line k IH]; simpl; intros Hp w Hw; auto.
  destruct Hp as (Hq & Hk & Hh).
  specialize (Hperform R call w Hq Hw).
  destruct (perform call w) as [[t|r] w']; simpl in Hperform; auto.
Qed.

Lemma callsOnly_tryCatch {A : Type} (Q : forall R : Type, StoreCall R -> Prop)
      (p : Prog A) (handler : Thrown -> Prog A) :
  callsOnly Q p -> (forall t, callsOnly Q (handler t)) -> callsOnly Q (tryCatch p handler).
Proof.
  intros Hp Hh. induction p as [a|t|R call k IHk h IHh|path k IH|line k IH]; simpl in *; auto.
  destruct Hp as (Hq & Hk & Hh'). repeat split; auto.
Qed.

Lemma callsOnly_catchClause (Q : forall R : Type, StoreCall R -> Prop) (t : Thrown) :
  callsOnly Q (catchClause t).
Proof. by destruct t as [m|[| | | |s| |]]. Qed.

Lemma updateFirst_elem (f : Filter) (g : User.t -> User.t) (docs docs' : list User.t)
      (doc x' : User.t) :
  updateFirst f g docs = Some (doc, docs') -> x' ∈ docs' ->
  x' ∈ docs \/ exists x, x ∈ docs /\ x' = g x.
Proof.
  revert docs' doc. induction docs as [|u rest IH]; simpl; intros docs' doc; [done|].
  destruct (matches f u).
  - intros [= <- <-]. intros [->|Hin]%elem_of_cons.
    + right. exists u. split; [by left|done].
    + left. by right.
  - destruct (updateFirst f g rest) as [[d r']|] eqn:Hrest; [|done].
    intros [= <- <-]. intros [->|Hin]%elem_of_cons.
    + left. by left.
    + destruct (IH _ _ eq_refl Hin) as [?|(x & ? & ?)].
      * left. by right.
      * right. exists x. split; [by right|done].
Qed.

Lemma updateFirst_fmap {K : Type} (key : User.t -> K) (f : Filter) (g : User.t -> User.t)
      (docs docs' : list User.t) (doc : User.t) :
  (forall u, key (g u) = key u) ->
  updateFirst f g docs = Some (doc, docs') -> key <$> docs' = key <$> docs.
Proof.
  intros Hkey. revert docs' doc. induction docs as [|u rest IH]; simpl; intros docs' doc; [done|].
  destruct (matches f u).
  - intros [= <- <-]. by rewrite fmap_cons, Hkey.
  - destruct (updateFirst f g rest) as [[d r']|] eqn:Hrest; [|done].
    intros [= <- <-]. rewrite fmap_cons. f_equal. by eapply IH.
Qed.

Lemma removeFirst_sublist (f : Filter) (docs docs' : list User.t) (doc : User.t) :
  removeFirst f docs = Some (doc, docs') -> docs' `sublist_of` docs.
Proof.
  revert docs' doc. induction docs as [|u rest IH]; simpl; intros docs' doc; [done|].
  destruct (matches f u).
  - intros [= <- <-]. by apply sublist_cons.
  - destruct (removeFirst f rest) as [[d r']|] eqn:Hrest; [|done].
    intros [= <- <-]. apply sublist_skip. by eapply IH.
Qed.

Lemma applyUpdate_keys (d : UpdateDoc) (u : User.t) :
  User._id (applyUpdate d u) = User._id u /\
  User.clerkId (applyUpdate d u) = User.clerkId u.
Proof. by destruct d. Qed.

Lemma wellFormed_perform {R : Type} (call : StoreCall R) (w : World) :
  wellFormed w -> wellFormed (snd (perform call w)).
Proof.
  intros Hwf.
  assert (Hrec : wellFormed (record call w)) by exact Hwf.
  assert (Hserve : wellFormed (snd (serve call (record call w)))).
  { clear Hwf. revert Hrec. generalize (record call w). clear w. intros w (Hids & Hclerks & Hlt).
    unfold wellFormed.
    destruct call as [|user|c|f d|c|id]; simpl; unfold connect, insert.
    - by destruct (connected w).
    - destruct (existsb _ (users w)) eqn:Hex; [done|]. simpl.
      apply existsb_matches_false, findFirst_None in Hex.
      rewrite !fmap_app. simpl. repeat split.
      + apply NoDup_app. repeat split; [done| |apply NoDup_singleton].
        intros x (u & -> & Hu)%list_elem_of_fmap Hx%list_elem_of_singleton.
        rewrite Forall_forall in Hlt. specialize (Hlt u Hu). unfold ObjectId in *. lia.
      + apply NoDup_app. repeat split; [done| |apply NoDup_singleton].
        intros x (u & -> & Hu)%list_elem_of_fmap Hx%list_elem_of_singleton.
        rewrite Forall_forall in Hex. specialize (Hex u Hu). simpl in Hex.
        by apply bool_decide_eq_false in Hex.
      + apply Forall_app. split.
        * eapply Forall_impl; [exact Hlt|]. intros u Hu. simpl in Hu. unfold ObjectId in *. lia.
        * apply Forall_singleton. simpl. unfold ObjectId in *. lia.
    - done.
    - destruct (updateFirst f (applyUpdate d) (users w)) as [[doc us]|] eqn:Hup; [|done].
      simpl. repeat split.
      + by rewrite (updateFirst_fmap User._id _ _ _ _ _ (fun u => proj1 (applyUpdate_keys d u)) Hup).
      + by rewrite (updateFirst_fmap User.clerkId _ _ _ _ _ (fun u => proj2 (applyUpdate_keys d u)) Hup).
      + apply Forall_forall. intros x' Hx'. rewrite Forall_forall in Hlt.
        destruct (updateFirst_elem _ _ _ _ _ _ Hup Hx') as [Hin|(x & Hin & ->)]; [by apply Hlt|].
        specialize (Hlt x Hin). simpl. by rewrite (proj1 (applyUpdate_keys d x)).
    - destruct (removeFirst _ (users w)) as [[doc us]|] eqn:Hrm; [|done].
      apply removeFirst_sublist in Hrm. simpl. repeat split.
      + eapply sublist_NoDup; [exact Hids|]. by apply fmap_sublist.
      + eapply sublist_NoDup; [exact Hclerks|]. by apply fmap_sublist.
      + apply Forall_forall. intros x Hx. rewrite Forall_forall in Hlt. apply Hlt.
        by eapply elem_of_sublist.
    - destruct (removeFirst _ (users w)) as [[doc us]|] eqn:Hrm; [|done].
      apply removeFirst_sublist in Hrm. simpl. repeat split.
      + eapply sublist_NoDup; [exact Hids|]. by apply fmap_sublist.
      + eapply sublist_NoDup; [exact Hclerks|]. by apply fmap_sublist.
      + apply Forall_forall. intros x Hx. rewrite Forall_forall in Hlt. apply Hlt.
        by eapply elem_of_sublist. }
  unfold perform. by destruct (failures w) as [|[t|] fs].
Qed.

Lemma wellFormed_run {A : Type} (p : Prog A) (w : World) :
  wellFormed w -> wellFormed (snd (run p w)).
Proof.
  apply (run_invariant wellFormed); [intros; by apply wellFormed_perform|done|done].
Qed.

(** Every reachable store has unique primary keys and unique [clerkId]s. *)
Lemma reachable_wellFormed (w : World) : reachable w -> wellFormed w.
Proof.
  induction 1 as [fs|op w _ IH|fs w _ IH].
  - repeat split; simpl; constructor.
  - by apply wellFormed_run.
  - exact IH.
Qed.


(** *** The calls an action makes *)

(** Whatever the store does, the only store calls [updateCredits] can make
    are the connection and the increment. *)
Lemma updateCredits_calls (userId : ObjectId) (creditFee : Z) :
  callsOnly (incrementsOnly userId creditFee) (updateCredits userId creditFee).
Proof.
  apply callsOnly_tryCatch; [|apply callsOnly_catchClause]. calls_only.
Qed.

(** Every action awaits the connection before anything else. *)
Lemma action_connects_first (op : Operation) :
  exists k h, action op = Await connectToDatabase k h.
Proof. destruct op; by eexists _, _. Qed.

Lemma connect_idempotent (w : World) : connect (connect w) = connect w.
Proof. unfold connect. by destruct (connected w) eqn:Hc; simpl; rewrite ?Hc. Qed.

(** *** Who writes [creditBalance] *)

Lemma balancesKept_step (w0 w w' : World) :
  balancesKept w0 w ->
  (forall u', u' ∈ users w' ->
     exists u, u ∈ users w /\ User._id u = User._id u' /\
               User.creditBalance u = User.creditBalance u') ->
  balancesKept w0 w'.
Proof.
  intros Hkept Hstep u' Hu'.
  destruct (Hstep u' Hu') as (u & Hu & Hid & Hbal).
  destruct (Hkept u Hu) as (u0 & Hu0 & Hid0 & Hbal0).
  exists u0. repeat split; [done|congruence|congruence].
Qed.

Lemma perform_balancesKept {R : Type} (call : StoreCall R) (w0 w : World) :
  leavesBalances R call -> balancesKept w0 w -> balancesKept w0 (snd (perform call w)).
Proof.
  intros Hcall Hkept. apply (balancesKept_step w0 w); [done|].
  intros u' Hu'.
  assert (Hserve : u' ∈ users (snd (serve call (record call w))) ->
            exists u, u ∈ users w /\ User._id u = User._id u' /\
                      User.creditBalance u = User.creditBalance u').
  { clear Hu'. destruct call as [|user|c|f d|c|id]; simpl in *.
    - unfold connect. simpl. destruct (connected w); simpl; eauto.
    - done.
    - eauto.
    - destruct (updateFirst f (applyUpdate d) (users w)) as [[doc us]|] eqn:Hup; simpl; [|eauto].
      intros Hin. destruct (updateFirst_elem _ _ _ _ _ _ Hup Hin) as [?|(x & Hx & ->)]; [eauto|].
      exists x. split; [done|]. destruct d as [p|fee]; [|done]. simpl in *.
      by rewrite Hcall.
    - destruct (removeFirst _ (users w)) as [[doc us]|] eqn:Hrm; simpl; [|eauto].
      intros Hin. exists u'. split; [|done].
      eapply elem_of_sublist; [exact Hin|]. by eapply removeFirst_sublist.
    - destruct (removeFirst _ (users w)) as [[doc us]|] eqn:Hrm; simpl; [|eauto].
      intros Hin. exists u'. split; [|done].
      eapply elem_of_sublist; [exact Hin|]. by eapply removeFirst_sublist. }
  unfold perform in Hu'. destruct (failures w) as [|[t|] fs]; simpl in Hu'; eauto.
Qed.

Lemma createUser_users (user : CreateUserParams.t) (w : World) :
  let w' := snd (run (createUser user) w) in
  (users w' = users w /\ nextId w' = nextId w) \/
  users w' = users w ++ [newDocument (nextId w) user].
Proof.
  cbv zeta.
  apply (run_calls_invariant (createsOnly user)
           (fun w' => (users w' = users w /\ nextId w' = nextId w) \/
                      users w' = users w ++ [newDocument (nextId w) user])).
  - intros R call w1 Hcall Hw1.
    assert (Hserve : forall w2, users w2 = users w1 -> nextId w2 = nextId w1 ->
              (users (snd (serve call w2)) = users w /\ nextId (snd (serve call w2)) = nextId w) \/
              users (snd (serve call w2)) = users w ++ [newDocument (nextId w) user]).
    { intros w2 Hu2 Hn2. destruct call as [|user'|c|f d|c|id]; simpl in Hcall; try done.
      - simpl. unfold connect. destruct (connected w2); simpl; rewrite Hu2, ?Hn2; done.
      - subst user'. simpl. unfold insert. rewrite Hu2, Hn2.
        destruct Hw1 as [[Hu1 Hn1]|Hu1].
        + destruct (existsb _ (users w1)); simpl; rewrite ?Hu2, ?Hn2, Hu1, ?Hn1; eauto.
        + rewrite Hu1, existsb_app. simpl.
          rewrite bool_decide_eq_true_2 by done. rewrite orb_true_r. simpl.
          rewrite Hu2, Hu1. by right. }
    unfold perform. destruct (failures w1) as [|[t|] fs]; simpl; try done; by apply Hserve.
  - done.
  - done.
  - apply callsOnly_tryCatch; [|apply callsOnly_catchClause].
    calls_only.
  - by left.
Qed.

Lemma leavesBalances_action (op : Operation) :
  writesCreditBalance op = false ->
  (forall user, op <> CreateUser user) ->
  callsOnly leavesBalances (action op).
Proof.
  intros Hop Hnc.
  destruct op as [user|userId|clerkId user|clerkId|userId fee]; simpl in Hop; try done.
  - by destruct (Hnc user).
  - apply callsOnly_tryCatch; [|apply callsOnly_catchClause]. calls_only.
  - apply callsOnly_tryCatch; [|apply callsOnly_catchClause].
    apply bool_decide_eq_false in Hop.
    destruct (UpdateUserParams.creditBalance user) as [b|] eqn:Hb; [destruct Hop; eauto|].
    calls_only.
  - apply callsOnly_tryCatch; [|apply callsOnly_catchClause]. calls_only.
Qed.

(** C7, amended.  [creditBalance] is written by [updateCredits] and by an
    [updateUser] whose payload names [creditBalance], and by nothing else:
    after any other operation, whatever the store raises meanwhile, each
    stored record has the primary key and the balance of a record stored
    before, or is the record that [createUser] has just inserted. *)
Theorem creditBalance_written_only_by (op : Operation) (w : World) (u' : User.t) :
  writesCreditBalance op = false ->
  u' ∈ users (snd (run (action op) w)) ->
  (exists u, u ∈ users w /\ User._id u = User._id u' /\
             User.creditBalance u = User.creditBalance u') \/
  (exists user, op = CreateUser user /\ u' = newDocument (nextId w) user).
Proof.
  intros Hop Hin.
  assert (Hcases : (exists user, op = CreateUser user) \/ (forall user, op <> CreateUser user)).
  { destruct op; eauto. }
  destruct Hcases as [[user ->]|Hnc].
  - change (action (CreateUser user)) with (createUser user) in Hin.
    destruct (createUser_users user w) as [[Hu _]|Hu]; rewrite Hu in Hin.
    + left. eauto.
    + apply elem_of_app in Hin as [Hin|Hin%list_elem_of_singleton]; [left; eauto|].
      right. eauto.
  - left.
    assert (Hkept : balancesKept w (snd (run (action op) w))).
    { apply (run_calls_invariant leavesBalances (balancesKept w)).
      - intros R call w1. apply perform_balancesKept.
      - done.
      - done.
      - by apply leavesBalances_action.
      - intros u Hu. eauto. }
    by apply Hkept.
Qed.


(** *** Two adjustments in flight *)

Lemma balanceOf_found (userId : ObjectId) (w : World) (b : Z) :
  balanceOf userId w = Some b ->
  exists before, findFirst (ById userId) (users w) = Some before /\
                 User.creditBalance before = b.
Proof.
  unfold balanceOf. destruct (findFirst _ _) as [before|]; [|done].
  intros [= <-]. eauto.
Qed.

Lemma step_updateCredits (userId : ObjectId) (creditFee : Z) (w : World) :
  quiet w ->
  step (updateCredits userId creditFee) w =
  (updateCredits_connected userId creditFee, afterConnect w).
Proof.
  intros Hq. unfold updateCredits. simpl. by rewrite perform_connect.
Qed.

Lemma step_updateCredits_connected (userId : ObjectId) (creditFee : Z) (w : World)
      (before : User.t) :
  quiet w ->
  findFirst (ById userId) (users w) = Some before ->
  exists w',
    step (updateCredits_connected userId creditFee) w =
      (Return (Json (incCreditBalance creditFee before)), w') /\
    quiet w' /\
    findFirst (ById userId) (users w') = Some (incCreditBalance creditFee before).
Proof.
  intros Hq Hfind.
  pose proof (quiet_perform
                (User_findOneAndUpdate (ById userId) (Inc_creditBalance creditFee)) w Hq) as Hq'.
  unfold updateCredits_connected. simpl.
  rewrite perform_quiet in Hq' |- * by done. simpl in Hq' |- *.
  destruct (findFirst_split _ _ _ Hfind) as (l1 & l2 & Hsplit & Hl1 & Hm).
  rewrite Hsplit, (updateFirst_app _ _ _ _ _ Hl1 Hm) in Hq' |- *.
  eexists. split; [reflexivity|]. split; [done|]. simpl.
  apply findFirst_app; [done|]. by rewrite matches_incCreditBalance.
Qed.

Lemma run_step {A : Type} (p : Prog A) (w : World) :
  run p w = run (fst (step p w)) (snd (step p w)).
Proof.
  destruct p as [a|t|R call k h|path k|line k]; simpl; try done.
  by destruct (perform call w) as [[t|r] w'].
Qed.

Lemma InFlight_applied (userId : ObjectId) (creditFee : Z) (p : Prog Resolved) (applied : Z) :
  InFlight userId creditFee p applied -> applied = 0%Z \/ applied = creditFee.
Proof. intros [| |doc]; auto. Qed.

(** One step of an adjustment in flight, when the balance it leads to is a
    safe integer. *)
Lemma step_inFlight (userId : ObjectId) (creditFee : Z) (p : Prog Resolved)
      (applied b : Z) (w : World) :
  quiet w -> balanceOf userId w = Some b -> InFlight userId creditFee p applied ->
  isSafeInteger (b + creditFee - applied) = true ->
  exists applied',
    InFlight userId creditFee (fst (step p w)) applied' /\
    quiet (snd (step p w)) /\
    balanceOf userId (snd (step p w)) = Some (b + applied' - applied)%Z.
Proof.
  intros Hq Hb Hp Hsafe. destruct Hp as [| |doc].
  - rewrite step_updateCredits by done. exists 0%Z. simpl. split; [constructor|].
    split; [by apply quiet_afterConnect|].
    unfold balanceOf in *. destruct (afterConnect_data w) as (-> & _).
    rewrite Hb. f_equal. lia.
  - destruct (balanceOf_found _ _ _ Hb) as (before & Hfind & Hbal).
    destruct (step_updateCredits_connected userId creditFee w before Hq Hfind)
      as (w' & -> & Hq' & Hfind').
    exists creditFee. simpl. split; [constructor|]. split; [done|].
    unfold balanceOf. rewrite Hfind'. simpl. f_equal.
    rewrite Hbal, addDoubles_safe; [lia|]. by rewrite Z.sub_0_r in Hsafe.
  - exists creditFee. simpl. split; [constructor|]. split; [done|].
    rewrite Hb. f_equal. lia.
Qed.

(** An adjustment in flight, left alone, applies what it has not applied yet. *)
Lemma run_inFlight (userId : ObjectId) (creditFee : Z) (p : Prog Resolved)
      (applied b : Z) (w : World) :
  quiet w -> balanceOf userId w = Some b -> InFlight userId creditFee p applied ->
  isSafeInteger (b + creditFee - applied) = true ->
  (exists doc, fst (run p w) = Resolves (Json doc)) /\
  quiet (snd (run p w)) /\
  balanceOf userId (snd (run p w)) = Some (b + creditFee - applied)%Z.
Proof.
  intros Hq Hb Hp Hsafe.
  assert (Hconnected : forall w1 b1, quiet w1 -> balanceOf userId w1 = Some b1 ->
            isSafeInteger (b1 + creditFee) = true ->
            (exists doc, fst (run (updateCredits_connected userId creditFee) w1)
                         = Resolves (Json doc)) /\
            quiet (snd (run (updateCredits_connected userId creditFee) w1)) /\
            balanceOf userId (snd (run (updateCredits_connected userId creditFee) w1))
              = Some (b1 + creditFee)%Z).
  { intros w1 b1 Hq1 Hb1 Hsafe1.
    destruct (balanceOf_found _ _ _ Hb1) as (before & Hfind & Hbal).
    destruct (step_updateCredits_connected userId creditFee w1 before Hq1 Hfind)
      as (w' & Hstep & Hq' & Hfind').
    rewrite run_step, Hstep. simpl. split; [eauto|]. split; [done|].
    unfold balanceOf. rewrite Hfind'. simpl. by rewrite Hbal, addDoubles_safe. }
  destruct Hp as [| |doc].
  - assert (Hrun : run (updateCredits userId creditFee) w =
                   run (updateCredits_connected userId creditFee) (afterConnect w)).
    { by rewrite run_step, step_updateCredits. }
    rewrite Hrun. rewrite Z.sub_0_r in Hsafe.
    destruct (Hconnected (afterConnect w) b) as (Ho & Hq' & Hb').
    + by apply quiet_afterConnect.
    + unfold balanceOf in *. by destruct (afterConnect_data w) as (-> & _).
    + done.
    + split; [done|]. split; [done|]. rewrite Hb'. f_equal. lia.
  - rewrite Z.sub_0_r in Hsafe. destruct (Hconnected w b Hq Hb Hsafe) as (Ho & Hq' & Hb').
    split; [done|]. split; [done|]. rewrite Hb'. f_equal. lia.
  - simpl. split; [eauto|]. split; [done|]. rewrite Hb. f_equal. lia.
Qed.

Lemma interleave_inFlight (userId : ObjectId) (delta1 delta2 initial : Z)
      (schedule : list bool) :
  allSafe [initial; delta1; delta2; initial + delta1; initial + delta2;
           initial + delta1 + delta2]%Z = true ->
  forall (p q : Prog Resolved) (applied1 applied2 : Z) (w : World),
    quiet w -> balanceOf userId w = Some (initial + applied1 + applied2)%Z ->
    InFlight userId delta1 p applied1 -> InFlight userId delta2 q applied2 ->
    let '(first, second, w') := interleave schedule p q w in
    (exists doc1 doc2, first = Resolves (Json doc1) /\ second = Resolves (Json doc2)) /\
    balanceOf userId w' = Some (initial + delta1 + delta2)%Z.
Proof.
  intros Hsafe.
  assert (Hcorner : forall a1 a2, (a1 = 0 \/ a1 = delta1)%Z -> (a2 = 0 \/ a2 = delta2)%Z ->
                      isSafeInteger (initial + a1 + a2) = true).
  { simpl in Hsafe. rewrite !andb_true_iff, !isSafeInteger_bounds in Hsafe.
    intros a1 a2 [->| ->] [->| ->]; apply isSafeInteger_bounds; lia. }
  clear Hsafe.
  induction schedule as [|[|] rest IH]; intros p q applied1 applied2 w Hq Hb Hp Hpq; simpl.
  - pose proof (InFlight_applied _ _ _ _ Hpq) as Ha2.
    destruct (run_inFlight userId delta1 p applied1 _ w Hq Hb Hp) as ((doc1 & Ho1) & Hq1 & Hb1).
    { replace (initial + applied1 + applied2 + delta1 - applied1)%Z
        with (initial + delta1 + applied2)%Z by lia. apply Hcorner; auto. }
    destruct (run p w) as [first w1]. simpl in Ho1, Hq1, Hb1.
    destruct (run_inFlight userId delta2 q applied2 _ w1 Hq1 Hb1 Hpq) as ((doc2 & Ho2) & Hq2 & Hb2).
    { replace (initial + applied1 + applied2 + delta1 - applied1 + delta2 - applied2)%Z
        with (initial + delta1 + delta2)%Z by lia. apply Hcorner; auto. }
    destruct (run q w1) as [second w2]. simpl in Ho2, Hq2, Hb2.
    split; [eauto|]. rewrite Hb2. f_equal. lia.
  - pose proof (InFlight_applied _ _ _ _ Hpq) as Ha2.
    destruct (step_inFlight userId delta1 p applied1 _ w Hq Hb Hp) as (a' & Hp' & Hq' & Hb').
    { replace (initial + applied1 + applied2 + delta1 - applied1)%Z
        with (initial + delta1 + applied2)%Z by lia. apply Hcorner; auto. }
    destruct (step p w) as [p' w']. simpl in Hp', Hq', Hb'.
    apply (IH p' q a' applied2 w' Hq'); [|done|done].
    rewrite Hb'. f_equal. lia.
  - pose proof (InFlight_applied _ _ _ _ Hp) as Ha1.
    destruct (step_inFlight userId delta2 q applied2 _ w Hq Hb Hpq) as (a' & Hp' & Hq' & Hb').
    { replace (initial + applied1 + applied2 + delta2 - applied2)%Z
        with (initial + applied1 + delta2)%Z by lia. apply Hcorner; auto. }
    destruct (step q w) as [q' w']. simpl in Hp', Hq', Hb'.
    apply (IH p q' applied1 a' w' Hq'); [|done|done].
    rewrite Hb'. f_equal. lia.
Qed.

(** C4, amended.  Two [updateCredits] on the same stored user, their store
    calls interleaved in any order, both resolve; and when the initial
    balance, the two deltas (of either sign) and every sum of the initial
    balance with one or both deltas are safe integers, the balance ends at
    the initial balance plus both deltas. *)
Theorem concurrent_updateCredits_both_apply
    (schedule : list bool) (u : ObjectId) (delta1 delta2 initial : Z) (w : World) :
  quiet w ->
  balanceOf u w = Some initial ->
  allSafe [initial; delta1; delta2; initial + delta1; initial + delta2;
           initial + delta1 + delta2]%Z = true ->
  let '(first, second, w') :=
    interleave schedule (updateCredits u delta1) (updateCredits u delta2) w in
  (exists doc1 doc2, first = Resolves (Json doc1) /\ second = Resolves (Json doc2)) /\
  balanceOf u w' = Some (initial + delta1 + delta2)%Z.
Proof.
  intros Hq Hb Hsafe.
  apply (interleave_inFlight u delta1 delta2 initial schedule Hsafe _ _ 0%Z 0%Z w Hq);
    [|apply at_start|apply at_start].
  rewrite Hb. f_equal. lia.
Qed.

(** *** The statements at work on the sample store *)

Lemma quiet_sampleWorld : quiet sampleWorld.
Proof. vm_compute. constructor. Qed.

Lemma wellFormed_sampleWorld : wellFormed sampleWorld.
Proof.
  apply reachable_wellFormed.
  exact (reachable_run (CreateUser sampleUser) (initial []) (reachable_initial [])).
Qed.

Lemma updateCredits_single_increment_witness :
  quiet sampleWorld /\
  allSafe [10; -3; 10 + -3]%Z = true /\
  exists after,
    fst (run (updateCredits 0%N (-3)%Z) sampleWorld) = Resolves (Json after) /\
    User.creditBalance after = 7%Z.
Proof.
  split; [exact quiet_sampleWorld|]. split; [reflexivity|].
  pose proof (updateCredits_single_increment 0%N (-3)%Z sampleWorld quiet_sampleWorld) as H.
  vm_compute in H. destruct H as (_ & after & Hout & _ & Hbal & _).
  exists after. split; [exact Hout|exact (Hbal eq_refl)].
Defined.

Lemma store_failure_swallowed_witness :
  let w := initial [Some (NonError (JsNumber 42))] in
  Forall (fun f : option Thrown => f = None) [] /\
  (forall s, JsNumber 42 <> JsString s) /\
  failures w = [] ++ Some (NonError (JsNumber 42))
                 :: failures (snd (run (action (CreateUser sampleUser)) w)) /\
  fst (run (action (CreateUser sampleUser)) w) = Resolves Undefined /\
  console (snd (run (action (CreateUser sampleUser)) w)) = console w.
Proof.
  cbv zeta.
  assert (H1 : Forall (fun f : option Thrown => f = None) []) by constructor.
  assert (H2 : forall s, JsNumber 42 <> JsString s) by (intros s; discriminate).
  split; [exact H1|]. split; [exact H2|]. split; [reflexivity|].
  apply (store_failure_swallowed (CreateUser sampleUser) (JsNumber 42) []
           (initial [Some (NonError (JsNumber 42))]) H1 H2).
  reflexivity.
Defined.

Lemma deleteUser_resolves_null_witness :
  quiet sampleWorld /\ wellFormed sampleWorld /\
  findFirst (ByClerkId "user_2b") (users sampleWorld) = Some (newDocument 0%N sampleUser) /\
  fst (run (deleteUser "user_2b") sampleWorld) = Resolves Null.
Proof.
  split; [exact quiet_sampleWorld|]. split; [exact wellFormed_sampleWorld|].
  split; [reflexivity|].
  pose proof (deleteUser_resolves_null "user_2b" sampleWorld (newDocument 0%N sampleUser)
                quiet_sampleWorld wellFormed_sampleWorld eq_refl) as H.
  vm_compute in H. destruct H as (Hout & _). exact Hout.
Defined.

Lemma concurrent_updateCredits_both_apply_witness :
  quiet sampleWorld /\ balanceOf 0%N sampleWorld = Some 10%Z /\
  allSafe [10; -5; -5; 10 + -5; 10 + -5; 10 + -5 + -5]%Z = true /\
  balanceOf 0%N
    (snd (interleave [true; false; false; true]
            (updateCredits 0%N (-5)%Z) (updateCredits 0%N (-5)%Z) sampleWorld))
  = Some 0%Z.
Proof.
  split; [exact quiet_sampleWorld|]. split; [reflexivity|]. split; [reflexivity|].
  pose proof (concurrent_updateCredits_both_apply [true; false; false; true] 0%N
                (-5)%Z (-5)%Z 10%Z sampleWorld quiet_sampleWorld eq_refl eq_refl) as H.
  vm_compute in H. destruct H as (_ & Hbal). exact Hbal.
Defined.

Lemma updateUser_replaces_named_fields_witness :
  quiet sampleWorld /\
  findFirst (ByClerkId "user_2b") (users sampleWorld) = Some (newDocument 0%N sampleUser) /\
  exists after,
    fst (run (updateUser "user_2b" sampleRename) sampleWorld) = Resolves (Json after) /\
    User.username after = "x" /\
    forall f, f <> Fusername -> readField f after = readField f (newDocument 0%N sampleUser).
Proof.
  split; [exact quiet_sampleWorld|]. split; [reflexivity|].
  pose proof (updateUser_replaces_named_fields "user_2b" sampleRename sampleWorld
                (newDocument 0%N sampleUser) quiet_sampleWorld eq_refl) as H.
  destruct (run (updateUser "user_2b" sampleRename) sampleWorld) as [outcome w'].
  destruct H as (after & Hout & _ & Hfields).
  exists after. split; [exact Hout|]. split.
  - specialize (Hfields Fusername). simpl in Hfields. congruence.
  - intros f Hf. rewrite Hfields. destruct f; try reflexivity. by destruct Hf.
Defined.

Lemma getUserById_after_createUser_witness :
  quiet (initial []) /\
  findFirst (ByClerkId (CreateUserParams.clerkId sampleUser)) (users (initial [])) = None /\
  fst (run (getUserById "user_2b") sampleWorld) = Resolves (Json (newDocument 0%N sampleUser)).
Proof.
  assert (Hq : quiet (initial [])) by constructor.
  split; [exact Hq|]. split; [reflexivity|].
  pose proof (getUserById_after_createUser sampleUser (initial []) Hq eq_refl) as H.
  vm_compute in H. destruct H as (doc & Hc & Hf & _).
  injection Hc as <-. exact Hf.
Defined.

Lemma updateCredits_no_floor_witness :
  quiet (initial []) /\ wellFormed (initial []) /\
  findFirst (ByClerkId (CreateUserParams.clerkId sampleUser)) (users (initial [])) = None /\
  CreateUserParams.creditBalance sampleUser = 10%Z /\
  balanceOf 0%N
    (snd (run (updateCredits 0%N (-100)%Z)
            (snd (run (updateCredits 0%N (-3)%Z) sampleWorld))))
  = Some (-93)%Z.
Proof.
  assert (Hq : quiet (initial [])) by constructor.
  assert (Hwf : wellFormed (initial [])) by (apply reachable_wellFormed, reachable_initial).
  split; [exact Hq|]. split; [exact Hwf|]. split; [reflexivity|]. split; [reflexivity|].
  pose proof (updateCredits_no_floor sampleUser (initial []) Hq Hwf eq_refl eq_refl) as H.
  vm_compute in H. destruct H as (doc1 & doc2 & doc3 & H). 
  destruct H as (_ & _ & _ & _ & _ & _ & _ & Hbal). exact Hbal.
Defined.

(** C7 as stated fails: [updateUser] with a payload that names
    [creditBalance] writes the balance. *)
Lemma updateUser_changes_creditBalance :
  balanceOf 0%N sampleWorld = Some 10%Z /\
  balanceOf 0%N (snd (run (updateUser "user_2b" sampleGrant) sampleWorld)) = Some 999%Z.
Proof. split; reflexivity. Qed.

Lemma creditBalance_written_only_by_witness :
  writesCreditBalance (UpdateUser "user_2b" sampleRename) = false /\
  setFields sampleRename (newDocument 0%N sampleUser)
    ∈ users (snd (run (action (UpdateUser "user_2b" sampleRename)) sampleWorld)) /\
  exists u, u ∈ users sampleWorld /\ User._id u = 0%N /\ User.creditBalance u = 10%Z.
Proof.
  assert (Hin : setFields sampleRename (newDocument 0%N sampleUser)
                  ∈ users (snd (run (action (UpdateUser "user_2b" sampleRename)) sampleWorld))).
  { vm_compute. left. }
  split; [reflexivity|]. split; [exact Hin|].
  destruct (creditBalance_written_only_by (UpdateUser "user_2b" sampleRename) sampleWorld
              _ eq_refl Hin) as [(u & Hu & Hid & Hbal)|(user & Hop & _)].
  - exists u. split; [exact Hu|]. split; [exact Hid|exact Hbal].
  - discriminate Hop.
Defined.

(** The interleavings do tell an atomic increment from a read followed by a
    write: two callers that each read the balance and write the sum back can
    lose one of the two adjustments. *)
(** C1 as stated fails: on a balance of 11, [updateCredits(id, 2^53)]
    resolves with a record whose balance is 9007199254741004, the double
    nearest to the sum, and not the balance plus the delta. *)
Lemma updateCredits_rounds_a_large_sum :
  balanceOf 0%N oddWorld = Some 11%Z /\
  exists after,
    fst (run (updateCredits 0%N 9007199254740992%Z) oddWorld) = Resolves (Json after) /\
    User.creditBalance after = 9007199254741004%Z /\
    User.creditBalance after <> (11 + 9007199254740992)%Z.
Proof. split; [reflexivity|]. eexists. split; [reflexivity|]. split; [reflexivity|done]. Qed.

(** C4 as stated fails: with an initial balance of 11 and the deltas [2^53]
    and [-2^53], the balance ends at 12 when the first adjustment is served
    first, and at 11 when the second is: not at the sum in the one order,
    and dependent on the order. *)
Lemma concurrent_updateCredits_rounding_depends_on_order :
  let delta1 := 9007199254740992%Z in
  let delta2 := (-9007199254740992)%Z in
  balanceOf 0%N oddWorld = Some 11%Z /\
  balanceOf 0%N
    (snd (interleave [true; true; false; false]
            (updateCredits 0%N delta1) (updateCredits 0%N delta2) oddWorld))
  = Some 12%Z /\
  Some 12%Z <> Some (11 + delta1 + delta2)%Z /\
  balanceOf 0%N
    (snd (interleave [false; false; true; true]
            (updateCredits 0%N delta1) (updateCredits 0%N delta2) oddWorld))
  = Some 11%Z.
Proof. cbv zeta. split; [reflexivity|]. split; [reflexivity|]. split; [done|reflexivity]. Qed.

Lemma readModifyWrite_loses_an_update :
  balanceOf 0%N sampleWorld = Some 10%Z /\
  balanceOf 0%N
    (snd (interleave [true; true; false; false]
            (readModifyWrite "user_2b" (-5)%Z) (readModifyWrite "user_2b" (-5)%Z)
            sampleWorld))
  = Some 5%Z.
Proof. split; reflexivity. Qed.


End LedgerFacts.

(* ===================================================================== *)
(** ** Further properties of the utility module *)
(* ===================================================================== *)

Module UtilityFacts.
Import Js JsFacts.
#[local] Open Scope list_scope.

(** *** More about [deepMergeObjects] *)

(** X1.  Merging drops no key and invents none: when the first object has
    no own key named [hasOwnProperty] or [__proto__] at any depth, the keys
    of the result of [deepMergeObjects] on two objects are the keys of the
    first together with the keys of the second. *)
Theorem deepMergeObjects_keys (props1 props2 : gmap string JsValue) :
  OrdinaryKeys (JsObject props1) ->
  exists output,
    deepMergeObjects (JsObject props1) (Value (JsObject props2)) = Returns (JsObject output) /\
    dom output = dom props1 ∪ dom props2.
Proof.
  intros Hordinary.
  destruct (deepMergeObjects_lookup _ Hordinary (Value (JsObject props2)))
    as (output & Heq & Hlookup); [done|].
  exists output. split; [exact Heq|].
  apply set_eq. intros key. specialize (Hlookup key). simpl in Hlookup.
  rewrite elem_of_union, !elem_of_dom.
  destruct (props1 !! key) as [v1|].
  - destruct Hlookup as (merged & _ & ->). split; eauto.
  - rewrite Hlookup. split; [eauto|]. by intros [[? [=]]|?].
Qed.

(** X2.  The empty object is neutral on both sides: merging an object whose
    own keys do not include [hasOwnProperty] or [__proto__] with [{}], or
    [{}] with any object, gives back an object with the same properties. *)
Theorem deepMergeObjects_empty (props : gmap string JsValue) :
  (props !! "hasOwnProperty" = None -> props !! "__proto__" = None ->
   deepMergeObjects (JsObject props) (Value (JsObject ∅)) = Returns (JsObject props)) /\
  deepMergeObjects (JsObject ∅) (Value (JsObject props)) = Returns (JsObject props).
Proof.
  split.
  - intros Hhas Hproto. rewrite deepMergeObjects_unfold. simpl.
    rewrite bool_decide_eq_true_2 by done.
    destruct (forIn_object_lookup (fun _ v1 => v1) (assignStep (Value (JsObject ∅))) ∅ props)
      as (output & -> & Hlookup).
    { intros key v1 output Hk.
      assert (Hkey : key <> "__proto__") by (intros ->; congruence).
      unfold assignStep. rewrite (mergedAt_ordinary _ _ _ Hkey). simpl.
      rewrite lookup_empty. by apply assignTo_ordinary. }
    simpl. do 2 f_equal. apply map_eq. intros key. rewrite Hlookup.
    destruct (props !! key); [done|]. by rewrite lookup_empty.
  - rewrite deepMergeObjects_unfold. simpl. by rewrite map_fold_empty.
Qed.

(** X3.  Arrays do not stay arrays: what [deepMergeObjects] returns for two
    arrays, the first holding no own key named [hasOwnProperty] or
    [__proto__] at any depth, is a plain object keyed by the indices, which
    holds at each index the first array's element (what the recursive call
    returns when both elements are objects) and, past the end of the first,
    the second array's element. *)
Theorem deepMergeObjects_arrays (items1 items2 : list JsValue) :
  OrdinaryKeys (JsArray items1) ->
  exists output,
    deepMergeObjects (JsArray items1) (Value (JsArray items2)) = Returns (JsObject output) /\
    forall i : nat,
      match items1 !! i, items2 !! i with
      | Some v1, Some v2 =>
          if isObject v1 && isObject v2
          then exists merged, deepMergeObjects v1 (Value v2) = Returns merged /\
                              output !! pretty i = Some merged
          else output !! pretty i = Some v1
      | Some v1, None => output !! pretty i = Some v1
      | None, o2 => output !! pretty i = o2
      end.
Proof.
  intros Hordinary.
  destruct (deepMergeObjects_lookup _ Hordinary (Value (JsArray items2)))
    as (output & Heq & Hlookup); [done|].
  exists output. split; [exact Heq|]. intros i. specialize (Hlookup (pretty i)).
  pose proof (indexed_at items1 0 i) as H1. pose proof (indexed_at items2 0 i) as H2.
  simpl in Hlookup, H1, H2. rewrite H1 in Hlookup.
  destruct (items1 !! i) as [v1|]; [|by rewrite Hlookup, H2].
  destruct Hlookup as (merged & Hmerged & Hat).
  rewrite (mergedAt_ordinary _ _ _ (index_not_proto i)) in Hmerged. simpl in Hmerged.
  rewrite H2 in Hmerged.
  destruct (items2 !! i) as [v2|].
  - destruct (isObject v1 && isObject v2); [by exists merged|]. congruence.
  - congruence.
Qed.

(** X4.  Merging an object that holds no array, and no own key named
    [hasOwnProperty] or [__proto__] at any depth, with itself changes
    nothing. *)
Theorem deepMergeObjects_idempotent (props : gmap string JsValue) :
  ArrayFree (JsObject props) -> OrdinaryKeys (JsObject props) ->
  deepMergeObjects (JsObject props) (Value (JsObject props)) = Returns (JsObject props).
Proof.
  intros Hfree Hordinary.
  assert (Hgen : forall v, ArrayFree v -> OrdinaryKeys v -> forall m, v = JsObject m ->
                   deepMergeObjects v (Value v) = Returns v).
  { clear. intros v Hv.
    induction Hv as [| | | | |props Hprops IH]; intros Hordinary m Hm; try discriminate.
    destruct (deepMergeObjects_lookup _ Hordinary (Value (JsObject props)))
      as (output & -> & Hlookup); [done|].
    do 2 f_equal. apply map_eq. intros key. specialize (Hlookup key). simpl in Hlookup.
    destruct (props !! key) as [v1|] eqn:Hkey; [|done].
    destruct Hlookup as (merged & Hmerged & ->). f_equal.
    assert (Hne : key <> "__proto__").
    { intros ->. pose proof (OrdinaryKeys_no_proto _ Hordinary) as Hp. simpl in Hp.
      congruence. }
    rewrite (mergedAt_ordinary _ _ _ Hne) in Hmerged. cbn [ownProps] in Hmerged.
    rewrite Hkey, andb_diag in Hmerged.
    destruct v1 as [| | | | |items|inner]; cbn [isObject] in Hmerged; try congruence.
    - specialize (Hprops key _ Hkey). inversion Hprops.
    - rewrite (IH key _ Hkey (OrdinaryKeys_prop _ _ key Hordinary Hkey) inner eq_refl)
        in Hmerged.
      congruence. }
  by eapply Hgen.
Qed.

(** X5.  Every leaf of the first object survives at its place: when [obj1]
    has no own key named [hasOwnProperty] or [__proto__] at any depth and
    following a path of keys in [obj1] ends at a value that is not an
    object, [deepMergeObjects(obj1, obj2)] returns a value in which the same
    path ends at that value, whatever [obj2] holds. *)
Theorem deepMergeObjects_keeps_leaves (keys : list string) :
  forall (obj1 obj2 leaf : JsValue),
    OrdinaryKeys obj1 ->
    keys <> [] ->
    getPath keys obj1 = Some leaf ->
    isObject leaf = false ->
    exists merged,
      deepMergeObjects obj1 (Value obj2) = Returns merged /\
      getPath keys merged = Some leaf.
Proof.
  induction keys as [|key rest IH]; intros obj1 obj2 leaf Hordinary Hne Hpath Hleaf; [done|].
  destruct (nullishOperand (Value obj2)) eqn:Hnull.
  { exists obj1. split; [|done]. rewrite deepMergeObjects_unfold. by rewrite Hnull. }
  destruct (deepMergeObjects_lookup _ Hordinary (Value obj2) Hnull) as (output & -> & Hlookup).
  exists (JsObject output). split; [done|].
  simpl in Hpath |- *. specialize (Hlookup key).
  destruct (ownProps obj1 !! key) as [v1|] eqn:Hk1; [|done].
  destruct Hlookup as (merged & Hmerged & ->).
  assert (Hkey : key <> "__proto__").
  { intros ->. pose proof (OrdinaryKeys_no_proto _ Hordinary) as Hp. congruence. }
  rewrite (mergedAt_ordinary _ _ _ Hkey) in Hmerged.
  assert (Hkept : merged = v1 \/
                  exists v2, isObject v1 = true /\ deepMergeObjects v1 (Value v2) = Returns merged).
  { destruct (ownProps obj2 !! key) as [v2|]; [|left; congruence].
    destruct (isObject v1) eqn:Hobj1; simpl in Hmerged; [|left; congruence].
    destruct (isObject v2); [right; eauto|left; congruence]. }
  destruct Hkept as [->|(v2 & Hobj1 & Hrec)]; [done|].
  destruct rest as [|key' rest'].
  - simpl in Hpath. injection Hpath as ->. congruence.
  - destruct (IH v1 v2 leaf (OrdinaryKeys_prop _ _ key Hordinary Hk1)) as (merged' & Heq & Hgot);
      [done|done|done|].
    congruence.
Qed.

(** *** [getImageSize] *)



(** *** [download] *)

Lemma append_cons (c : ascii) (a b : string) : String c a +:+ b = String c (a +:+ b).
Proof. reflexivity. Qed.

Lemma replaceFirstSpace_app (before after : string) :
  containsSpace before = false ->
  replaceFirstSpace (before +:+ String " " after) = before +:+ String "_" after.
Proof.
  induction before as [|c rest IH]; [done|].
  rewrite !append_cons. simpl.
  intros [Hc Hrest]%orb_false_iff. rewrite Hc. f_equal. by apply IH.
Qed.

Lemma append_assoc (a b c : string) : (a +:+ b) +:+ c = a +:+ (b +:+ c).
Proof.
  induction a as [|x a IH]; [done|]. rewrite !append_cons. by rewrite IH.
Qed.

Lemma append_nonempty (a b : string) : b <> EmptyString -> a +:+ b <> EmptyString.
Proof. destruct a; [done|]. by rewrite append_cons. Qed.

(** X7.  The name [download] gives the file replaces the first space of
    [filename] by an underscore and leaves every later space as it is, then
    appends [.png]. *)
Theorem download_replaces_first_space_only (url before after : string) :
  url <> EmptyString ->
  containsSpace before = false ->
  exists onBlob,
    download url (before +:+ String " " after) = DownloadFetches url onBlob /\
    forall blobURL,
      onBlob blobURL =
      mkAnchor blobURL (Some (before +:+ String "_" (after +:+ ".png"))).
Proof.
  intros Hurl Hbefore. unfold download.
  rewrite bool_decide_eq_false_2 by done.
  eexists. split; [reflexivity|]. intros blobURL. cbv beta.
  rewrite bool_decide_eq_false_2 by (apply append_nonempty; discriminate).
  rewrite replaceFirstSpace_app by done. by rewrite append_assoc, append_cons.
Qed.

(** *** [removeKeysFromQuery] *)

Lemma deleteKeys_lookup (keysToRemove : list string) (currentUrl : gmap string JsValue)
      (key : string) :
  deleteKeys keysToRemove currentUrl !! key =
  if bool_decide (key ∈ keysToRemove) then None else currentUrl !! key.
Proof.
  unfold deleteKeys. revert currentUrl.
  induction keysToRemove as [|k rest IH]; intros currentUrl; cbn [foldl].
  - by rewrite bool_decide_eq_false_2 by apply not_elem_of_nil.
  - rewrite IH. destruct (decide (key = k)) as [->|Hne].
    + rewrite (bool_decide_eq_true_2 (k ∈ k :: rest)) by by left.
      rewrite lookup_delete_eq. by case_bool_decide.
    + rewrite lookup_delete_ne by done.
      rewrite (bool_decide_ext (key ∈ k :: rest) (key ∈ rest)); [done|].
      rewrite elem_of_cons. split; [by intros [?|?]|by right].
Qed.

Lemma deleteNullish_fold (keys : list string) (acc : gmap string JsValue) (key : string) :
  foldl (fun acc key =>
           if nullish (default JsUndefined (acc !! key)) then delete key acc else acc)
        acc keys !! key =
  if bool_decide (key ∈ keys) && nullish (default JsUndefined (acc !! key))
  then None else acc !! key.
Proof.
  revert acc. induction keys as [|k rest IH]; intros acc; cbn [foldl].
  - by rewrite bool_decide_eq_false_2 by apply not_elem_of_nil.
  - rewrite IH. destruct (decide (key = k)) as [->|Hne].
    + rewrite (bool_decide_eq_true_2 (k ∈ k :: rest)) by by left. simpl.
      destruct (nullish (default JsUndefined (acc !! k))) eqn:Hn.
      * rewrite lookup_delete_eq. simpl. by rewrite andb_true_r, Tauto.if_same.
      * rewrite Hn, andb_false_r. done.
    + assert (Hk : (if nullish (default JsUndefined (acc !! k)) then delete k acc else acc)
                     !! key = acc !! key).
      { destruct (nullish _); [by rewrite lookup_delete_ne|done]. }
      rewrite Hk.
      rewrite (bool_decide_ext (key ∈ k :: rest) (key ∈ rest)); [done|].
      rewrite elem_of_cons. split; [by intros [?|?]|by right].
Qed.

Lemma deleteNullish_lookup (currentUrl : gmap string JsValue) (key : string) :
  deleteNullish currentUrl !! key =
  match currentUrl !! key with
  | Some v => if nullish v then None else Some v
  | None => None
  end.
Proof.
  unfold deleteNullish. rewrite deleteNullish_fold.
  destruct (currentUrl !! key) as [v|] eqn:Hkey; simpl.
  - rewrite bool_decide_eq_true_2; [done|].
    apply list_elem_of_fmap. exists (key, v). split; [done|].
    by apply elem_of_map_to_list.
  - by rewrite andb_true_r, Tauto.if_same.
Qed.

(** X8.  The query that [removeKeysFromQuery] hands to [qs.stringify] holds
    none of the keys to remove and no [null] or [undefined] value, and holds
    every other entry of the parsed query unchanged. *)
Theorem removeKeysFromQuery_query
    (qs_parse : string -> gmap string JsValue)
    (qs_stringify : gmap string JsValue -> string)
    (pathname searchParams : string) (keysToRemove : list string) :
  exists query,
    removeKeysFromQuery qs_parse qs_stringify pathname searchParams keysToRemove
      = pathname +:+ "?" +:+ qs_stringify query /\
    forall key,
      query !! key =
      if bool_decide (key ∈ keysToRemove) then None
      else match qs_parse searchParams !! key with
           | Some v => if nullish v then None else Some v
           | None => None
           end.
Proof.
  eexists. split; [reflexivity|]. intros key.
  rewrite deleteNullish_lookup, deleteKeys_lookup.
  by case_bool_decide.
Qed.

(** *** [debounce] *)

Lemma debounceRun_snoc (events : list DebounceEvent) (e : DebounceEvent) :
  debounceRun (events ++ [e]) = debounceStep (debounceRun events) e.
Proof. unfold debounceRun. by rewrite foldl_app. Qed.

Lemma lastInvoked_snoc (events : list DebounceEvent) (e : DebounceEvent) :
  lastInvoked (events ++ [e]) =
  match e with Invoked args => Some args | TimerDue _ => lastInvoked events end.
Proof. unfold lastInvoked. by rewrite foldl_app. Qed.

(** At any moment at most one timer of the debounced function is pending:
    the one [timeoutId] names, carrying the arguments of the latest call. *)
Lemma debounce_pending (events : list DebounceEvent) :
  pendingTimers (debounceRun events) = ∅ \/
  exists id args,
    pendingTimers (debounceRun events) = {[id := args]} /\
    timeoutId (debounceRun events) = Some id /\
    lastInvoked events = Some args.
Proof.
  induction events as [|e events IH] using rev_ind; [by left|].
  rewrite debounceRun_snoc, lastInvoked_snoc.
  destruct e as [args|id]; simpl.
  - right. exists (nextTimerId (debounceRun events)), args.
    split; [|done]. unfold invoke. simpl.
    destruct IH as [Hempty|(id & a & Hp & Ht & _)].
    + rewrite Hempty. destruct (timeoutId _); by rewrite ?delete_empty, insert_empty.
    + by rewrite Ht, Hp, delete_singleton_eq, insert_empty.
  - unfold fire.
    destruct (pendingTimers (debounceRun events) !! id) as [a|] eqn:Hid; [|exact IH].
    simpl. left. destruct IH as [Hempty|(id' & a' & Hp & _)].
    + by rewrite Hempty, delete_empty.
    + rewrite Hp in Hid |- *. apply lookup_singleton_Some in Hid as [<- _].
      by rewrite delete_singleton_eq.
Qed.

(** X23.  At any moment at most one timer of the debounced function is
    pending, the one [timeoutId] names, and it carries the arguments of the
    most recent call; so [func] is only ever called with those arguments:
    when a timer comes due, either nothing happens or [func] is called
    once, with the arguments of the most recent call. *)
Theorem debounce_delivers_latest (events : list DebounceEvent) (id : nat) :
  (pendingTimers (debounceRun events) = ∅ \/
   exists pending args,
     pendingTimers (debounceRun events) = {[pending := args]} /\
     timeoutId (debounceRun events) = Some pending /\
     lastInvoked events = Some args) /\
  (funcCalls (debounceRun (events ++ [TimerDue id])) = funcCalls (debounceRun events) \/
   exists args,
     lastInvoked events = Some args /\
     funcCalls (debounceRun (events ++ [TimerDue id]))
     = funcCalls (debounceRun events) ++ [args]).
Proof.
  split; [apply debounce_pending|].
  rewrite debounceRun_snoc. simpl. unfold fire.
  destruct (pendingTimers (debounceRun events) !! id) as [a|] eqn:Hid; [|by left].
  right. exists a. split; [|done].
  destruct (debounce_pending events) as [Hempty|(id' & a' & Hp & _ & Hlast)].
  - by rewrite Hempty, lookup_empty in Hid.
  - rewrite Hp in Hid. by apply lookup_singleton_Some in Hid as [_ <-].
Qed.

Lemma debounce_after_burst (earlier : list (list JsValue)) (last : list JsValue) :
  debounceRun (Invoked <$> (earlier ++ [last])) =
  mkDebounced (Some (S (length earlier))) {[S (length earlier) := last]}
    (S (S (length earlier))) [].
Proof.
  revert last. induction earlier as [|previous earlier IH] using rev_ind; intros last.
  - unfold debounceRun, invoke. simpl. unfold invoke. simpl. by rewrite insert_empty.
  - rewrite fmap_app. change (Invoked <$> [last]) with [Invoked last].
    rewrite debounceRun_snoc, IH. simpl. unfold invoke. simpl.
    rewrite delete_singleton_eq, insert_empty, length_app. simpl.
    by rewrite Nat.add_1_r.
Qed.

Lemma fires_on_empty (fires : list nat) (d : Debounced) :
  pendingTimers d = ∅ ->
  funcCalls (foldl debounceStep d (TimerDue <$> fires)) = funcCalls d.
Proof.
  revert d. induction fires as [|id fires IH]; intros d Hd; simpl; [done|].
  unfold fire. rewrite Hd, lookup_empty. by apply IH.
Qed.

Lemma fires_on_one (fires : list nat) (d : Debounced) (n : nat) (args : list JsValue) :
  pendingTimers d = {[n := args]} ->
  funcCalls (foldl debounceStep d (TimerDue <$> fires)) =
  funcCalls d ++ (if bool_decide (n ∈ fires) then [args] else []).
Proof.
  revert d. induction fires as [|id fires IH]; intros d Hd.
  - rewrite bool_decide_eq_false_2 by apply not_elem_of_nil. simpl. by rewrite app_nil_r.
  - rewrite fmap_cons. cbn [foldl debounceStep].
    unfold fire. rewrite Hd. destruct (decide (id = n)) as [->|Hne].
    + rewrite lookup_singleton_eq.
      rewrite fires_on_empty by (simpl; by rewrite delete_singleton_eq).
      simpl. by rewrite bool_decide_eq_true_2 by by left.
    + rewrite lookup_singleton_ne by done. rewrite IH by done.
      rewrite (bool_decide_ext (n ∈ id :: fires) (n ∈ fires)); [done|].
      rewrite elem_of_cons. split; [intros [?|?]; [congruence|done]|by right].
Qed.

(** X24.  A burst of calls of the debounced function, with no timer coming
    due in between, leads to at most one call of [func]: once the timer of
    the last call of the burst comes due, [func] has been called exactly
    once, with the arguments of that last call; the timers of the earlier
    calls do nothing. *)
Theorem debounce_burst (earlier : list (list JsValue)) (last : list JsValue)
      (fires : list nat) :
  funcCalls (debounceRun ((Invoked <$> (earlier ++ [last])) ++ (TimerDue <$> fires))) =
  if bool_decide (S (length earlier) ∈ fires) then [last] else [].
Proof.
  unfold debounceRun. rewrite foldl_app.
  fold (debounceRun (Invoked <$> (earlier ++ [last]))).
  rewrite debounce_after_burst.
  by rewrite (fires_on_one fires _ (S (length earlier)) last).
Qed.

(** *** The statements at work on small inputs *)

Lemma deepMergeObjects_keys_witness :
  let props1 : gmap string JsValue := {[ "a" := JsNumber 1 ]} in
  let props2 : gmap string JsValue := {[ "b" := JsNumber 2 ]} in
  OrdinaryKeys (JsObject props1) /\
  exists output,
    deepMergeObjects (JsObject props1) (Value (JsObject props2)) = Returns (JsObject output) /\
    dom output = dom props1 ∪ dom props2.
Proof.
  cbv zeta.
  assert (Hordinary : OrdinaryKeys (JsObject {[ "a" := JsNumber 1 ]})).
  { apply ordinary_object; [reflexivity|reflexivity|].
    intros key v [_ <-]%lookup_singleton_Some. by apply ordinary_leaf. }
  split; [exact Hordinary|].
  exact (deepMergeObjects_keys _ {[ "b" := JsNumber 2 ]} Hordinary).
Defined.

Lemma deepMergeObjects_empty_witness :
  let props : gmap string JsValue := {[ "a" := JsObject {[ "hasOwnProperty" := JsNull ]} ]} in
  props !! "hasOwnProperty" = None /\ props !! "__proto__" = None /\
  deepMergeObjects (JsObject props) (Value (JsObject ∅)) = Returns (JsObject props).
Proof.
  cbv zeta. split; [reflexivity|]. split; [reflexivity|].
  exact (proj1 (deepMergeObjects_empty {[ "a" := JsObject {[ "hasOwnProperty" := JsNull ]} ]})
           eq_refl eq_refl).
Defined.

Lemma deepMergeObjects_arrays_witness :
  OrdinaryKeys (JsArray [JsNumber 1; JsNumber 2]) /\
  exists output,
    deepMergeObjects (JsArray [JsNumber 1; JsNumber 2]) (Value (JsArray [JsNumber 7]))
    = Returns (JsObject output) /\
    output !! "0" = Some (JsNumber 1) /\ output !! "1" = Some (JsNumber 2).
Proof.
  assert (Hordinary : OrdinaryKeys (JsArray [JsNumber 1; JsNumber 2])).
  { apply ordinary_array. intros [|[|i]] v; simpl; try done; intros [= <-];
      by apply ordinary_leaf. }
  split; [exact Hordinary|].
  destruct (deepMergeObjects_arrays _ [JsNumber 7] Hordinary) as (output & Heq & Hlookup).
  exists output. split; [exact Heq|]. split.
  - exact (Hlookup 0%nat).
  - exact (Hlookup 1%nat).
Defined.

Lemma deepMergeObjects_idempotent_witness :
  let inner : gmap string JsValue := {[ "x" := JsNumber 1 ]} in
  let props : gmap string JsValue := {[ "a" := JsObject inner ]} in
  ArrayFree (JsObject props) /\ OrdinaryKeys (JsObject props) /\
  deepMergeObjects (JsObject props) (Value (JsObject props)) = Returns (JsObject props).
Proof.
  cbv zeta.
  assert (Hfree : ArrayFree (JsObject {[ "a" := JsObject {[ "x" := JsNumber 1 ]} ]})).
  { apply free_object. intros key v [_ <-]%lookup_singleton_Some.
    apply free_object. intros key' v' [_ <-]%lookup_singleton_Some. apply free_number. }
  assert (Hordinary : OrdinaryKeys (JsObject {[ "a" := JsObject {[ "x" := JsNumber 1 ]} ]})).
  { apply ordinary_object; [reflexivity|reflexivity|].
    intros key v [_ <-]%lookup_singleton_Some.
    apply ordinary_object; [reflexivity|reflexivity|].
    intros key' v' [_ <-]%lookup_singleton_Some. by apply ordinary_leaf. }
  split; [exact Hfree|]. split; [exact Hordinary|].
  exact (deepMergeObjects_idempotent _ Hfree Hordinary).
Defined.

Lemma deepMergeObjects_keeps_leaves_witness :
  let obj1 := JsObject {[ "a" := JsObject {[ "x" := JsNumber 1 ]} ]} in
  let obj2 := JsObject {[ "a" := JsObject {[ "x" := JsNumber 2; "y" := JsNumber 3 ]} ]} in
  OrdinaryKeys obj1 /\
  ["a"; "x"] <> [] /\
  getPath ["a"; "x"] obj1 = Some (JsNumber 1) /\
  isObject (JsNumber 1) = false /\
  exists merged,
    deepMergeObjects obj1 (Value obj2) = Returns merged /\
    getPath ["a"; "x"] merged = Some (JsNumber 1).
Proof.
  cbv zeta.
  assert (Hordinary : OrdinaryKeys (JsObject {[ "a" := JsObject {[ "x" := JsNumber 1 ]} ]})).
  { apply ordinary_object; [reflexivity|reflexivity|].
    intros key v [_ <-]%lookup_singleton_Some.
    apply ordinary_object; [reflexivity|reflexivity|].
    intros key' v' [_ <-]%lookup_singleton_Some. by apply ordinary_leaf. }
  assert (H1 : ["a"; "x"] <> ([] : list string)) by discriminate.
  assert (H2 : getPath ["a"; "x"] (JsObject {[ "a" := JsObject {[ "x" := JsNumber 1 ]} ]})
               = Some (JsNumber 1)) by (vm_compute; reflexivity).
  split; [exact Hordinary|]. split; [exact H1|]. split; [exact H2|]. split; [reflexivity|].
  exact (deepMergeObjects_keeps_leaves ["a"; "x"] _ _ _ Hordinary H1 H2 eq_refl).
Defined.

Lemma download_replaces_first_space_only_witness :
  "https://example.com/a.png" <> EmptyString /\
  containsSpace "my" = false /\
  exists onBlob,
    download "https://example.com/a.png" "my nice file"
      = DownloadFetches "https://example.com/a.png" onBlob /\
    forall blobURL, onBlob blobURL = mkAnchor blobURL (Some "my_nice file.png").
Proof.
  assert (H1 : "https://example.com/a.png" <> EmptyString) by discriminate.
  split; [exact H1|]. split; [reflexivity|].
  exact (download_replaces_first_space_only "https://example.com/a.png" "my" "nice file"
           H1 eq_refl).
Defined.

End UtilityFacts.

(* ===================================================================== *)
(** ** Further properties of the user ledger *)
(* ===================================================================== *)

Module LedgerMore.
Import Js Ledger LedgerFacts.
#[local] Open Scope list_scope.
#[local] Open Scope prog_scope.

(** *** Failures and missing records *)

(** X9.  An [Error] that the store raises while an action runs, whichever
    action and wherever in it, has its message logged once and comes back to
    the caller as an [Error] whose message is that message after "Error: ". *)
Theorem store_error_logged_and_rethrown (op : Operation) (message : string)
      (pre : list (option Thrown)) (w : World) :
  Forall (fun f => f = None) pre ->
  failures w = pre ++ Some (ErrorInstance message) :: failures (snd (run (action op) w)) ->
  fst (run (action op) w) = Rejects (ErrorInstance ("Error: " +:+ message)) /\
  console (snd (run (action op) w)) = console w ++ [message].
Proof.
  intros Hpre Hf.
  exact (store_failure_at_boundary op pre (ErrorInstance message) w Hpre Hf).
Qed.

(** X10.  [getUserById] of a [clerkId] that no record has rejects with
    "Error: User not found", logs "User not found" and leaves the collection
    as it was. *)
Theorem getUserById_not_found (userId : string) (w : World) :
  quiet w ->
  findFirst (ByClerkId userId) (users w) = None ->
  let '(outcome, w') := run (getUserById userId) w in
  outcome = Rejects (ErrorInstance "Error: User not found") /\
  users w' = users w /\
  console w' = console w ++ ["User not found"].
Proof.
  intros Hq Hnone. rewrite run_getUserById_quiet by done. cbv zeta. rewrite Hnone.
  destruct (afterConnect_data w) as (Hu & _ & Hc & _). simpl.
  by rewrite Hu, Hc.
Qed.

(** X11.  [updateUser] of a [clerkId] that no record has inserts nothing: it
    rejects with "Error: User update failed" and leaves the collection as it
    was. *)
Theorem updateUser_not_found (clerkId : string) (user : UpdateUserParams.t) (w : World) :
  quiet w ->
  findFirst (ByClerkId clerkId) (users w) = None ->
  let '(outcome, w') := run (updateUser clerkId user) w in
  outcome = Rejects (ErrorInstance "Error: User update failed") /\
  users w' = users w /\
  console w' = console w ++ ["User update failed"].
Proof.
  intros Hq Hnone. rewrite run_updateUser_quiet by done. cbv zeta.
  rewrite (updateFirst_None _ _ _ Hnone).
  destruct (afterConnect_data w) as (Hu & _ & Hc & _). simpl.
  by rewrite Hu, Hc.
Qed.

(** X12.  [deleteUser] of a [clerkId] that no record has rejects with
    "Error: User not found", removes nothing and does not call
    [revalidatePath]. *)
Theorem deleteUser_of_nobody (clerkId : string) (w : World) :
  quiet w ->
  findFirst (ByClerkId clerkId) (users w) = None ->
  let '(outcome, w') := run (deleteUser clerkId) w in
  outcome = Rejects (ErrorInstance "Error: User not found") /\
  users w' = users w /\
  revalidated w' = revalidated w.
Proof.
  intros Hq Hnone. rewrite run_deleteUser_quiet by done. cbv zeta.
  rewrite (removeFirst_None _ _ Hnone).
  destruct (afterConnect_data w) as (Hu & _ & _ & Hr & _). simpl.
  by rewrite Hu, Hr.
Qed.

(** X13.  [deleteUser] of a stored user removes that record and no other:
    the records before it and after it stay, in their order, and
    [revalidatePath("/")] is called once. *)
Theorem deleteUser_removes_one (clerkId : string) (w : World) (found : User.t) :
  quiet w -> wellFormed w ->
  findFirst (ByClerkId clerkId) (users w) = Some found ->
  exists l1 l2,
    users w = l1 ++ found :: l2 /\
    users (snd (run (deleteUser clerkId) w)) = l1 ++ l2 /\
    revalidated (snd (run (deleteUser clerkId) w)) = revalidated w ++ ["/"].
Proof.
  intros Hq (Hids & _ & _) Hfind. rewrite run_deleteUser_quiet by done. cbv zeta.
  destruct (findFirst_split _ _ _ Hfind) as (l1 & l2 & Hsplit & Hl1 & Hm).
  exists l1, l2. split; [done|].
  rewrite Hsplit in Hids |- *. rewrite (removeFirst_app _ _ _ _ Hl1 Hm).
  assert (Hgone : findFirst (ById (User._id found)) (l1 ++ l2) = None).
  { apply findFirst_None. eapply Forall_impl; [exact (unique_key_absent _ _ _ _ Hids)|].
    intros x Hx. simpl. by apply bool_decide_eq_false. }
  rewrite (removeFirst_None _ _ Hgone).
  destruct (afterConnect_data w) as (_ & _ & _ & Hrev & _).
  simpl. by rewrite Hrev.
Qed.

(** X14.  After [deleteUser] of a stored user, [getUserById] and
    [updateUser] of the same [clerkId] reject: the user is gone. *)
Theorem deleteUser_then_lookup (clerkId : string) (user : UpdateUserParams.t)
      (w : World) (found : User.t) :
  quiet w -> wellFormed w ->
  findFirst (ByClerkId clerkId) (users w) = Some found ->
  let w' := snd (run (deleteUser clerkId) w) in
  fst (run (getUserById clerkId) w') = Rejects (ErrorInstance "Error: User not found") /\
  fst (run (updateUser clerkId user) w') = Rejects (ErrorInstance "Error: User update failed").
Proof.
  intros Hq Hwf Hfind w'.
  assert (Hq' : quiet w') by by apply quiet_run.
  assert (Hgone : findFirst (ByClerkId clerkId) (users w') = None).
  { destruct Hwf as (Hids & Hclerks & _). subst w'.
    rewrite run_deleteUser_quiet by done. cbv zeta.
    destruct (findFirst_split _ _ _ Hfind) as (l1 & l2 & Hsplit & Hl1 & Hm).
    rewrite Hsplit in Hids, Hclerks |- *. rewrite (removeFirst_app _ _ _ _ Hl1 Hm).
    assert (Hnone : findFirst (ByClerkId clerkId) (l1 ++ l2) = None).
    { apply findFirst_None. eapply Forall_impl; [exact (unique_key_absent _ _ _ _ Hclerks)|].
      intros x Hx. simpl. apply bool_decide_eq_false.
      simpl in Hm. apply bool_decide_eq_true in Hm. congruence. }
    by destruct (removeFirst (ById (User._id found)) (l1 ++ l2)) as [[d us']|] eqn:Hrm;
      simpl; [apply removeFirst_sublist in Hrm;
              apply findFirst_None; apply findFirst_None in Hnone;
              rewrite Forall_forall in Hnone |- *; intros x Hx; apply Hnone;
              eapply elem_of_sublist; eauto|]. }
  split.
  - rewrite run_getUserById_quiet by done. cbv zeta. by rewrite Hgone.
  - rewrite run_updateUser_quiet by done. cbv zeta.
    by rewrite (updateFirst_None _ _ _ Hgone).
Qed.


(** *** What an update touches *)

Lemma perform_outcome {R : Type} (call : StoreCall R) (w : World) :
  (exists t, perform call w = (inl t, record call w)) \/
  perform call w = serve call (record call w).
Proof. unfold perform. destruct (failures w) as [|[t|] fs]; eauto. Qed.

Lemma catchClause_outcome (t : Thrown) (w : World) :
  users (snd (run (catchClause t) w)) = users w /\
  revalidated (snd (run (catchClause t) w)) = revalidated w /\
  trace (snd (run (catchClause t) w)) = trace w /\
  forall u, fst (run (catchClause t) w) <> Resolves (Json u).
Proof. rewrite run_catchClause. by destruct t as [m|[| | | |s| |]]. Qed.

Lemma updateFirst_split (f : Filter) (g : User.t -> User.t) (docs docs' : list User.t)
      (doc : User.t) :
  updateFirst f g docs = Some (doc, docs') ->
  exists l1 before l2,
    docs = l1 ++ before :: l2 /\ docs' = l1 ++ g before :: l2 /\
    doc = g before /\ matches f before = true /\
    Forall (fun x => matches f x = false) l1.
Proof.
  intros Hup.
  destruct (findFirst f docs) as [before|] eqn:Hfind.
  - destruct (findFirst_split _ _ _ Hfind) as (l1 & l2 & -> & Hl1 & Hm).
    rewrite (updateFirst_app _ g _ _ _ Hl1 Hm) in Hup. injection Hup as <- <-.
    by exists l1, before, l2.
  - by rewrite (updateFirst_None _ g _ Hfind) in Hup.
Qed.

(** The common shape of [updateUser] and [updateCredits]: one
    [findOneAndUpdate], reported or thrown on. *)
Lemma run_update_shape (filter : Filter) (update : UpdateDoc) (failed : string) (w : World) :
  let '(outcome, w') :=
    run (tryCatch
           (await connectToDatabase ;;
            updated <- await (User_findOneAndUpdate filter update) ;;
            match updated with
            | None => Throw (ErrorInstance failed)
            | Some updated => Return (JSON_roundtrip updated)
            end)
           catchClause) w in
  (exists l1 before l2,
      users w = l1 ++ before :: l2 /\
      matches filter before = true /\
      Forall (fun x => matches filter x = false) l1 /\
      users w' = l1 ++ applyUpdate update before :: l2 /\
      outcome = Resolves (Json (applyUpdate update before))) \/
  (users w' = users w /\ forall u, outcome <> Resolves (Json u)).
Proof.
  rewrite run_tryCatch, run_bind, run_await.
  destruct (perform_outcome connectToDatabase w) as [[t Hp]|Hp]; rewrite Hp.
  { destruct (catchClause_outcome t (record connectToDatabase w)) as (Hu & _ & _ & Ho).
    cbv beta iota.
    destruct (run (catchClause t) _) as [o w1]. right. simpl in *. by rewrite Hu. }
  simpl serve. cbv beta iota.
  rewrite run_bind, run_await.
  set (w1 := connect (record connectToDatabase w)).
  assert (Hw1 : users w1 = users w).
  { subst w1. unfold connect. by destruct (connected _). }
  destruct (perform_outcome (User_findOneAndUpdate filter update) w1) as [[t Hp']|Hp'];
    rewrite Hp'.
  { destruct (catchClause_outcome t (record (User_findOneAndUpdate filter update) w1))
      as (Hu & _ & _ & Ho).
    cbv beta iota.
    destruct (run (catchClause t) _) as [o w2]. right. simpl in *.
    split; [congruence|done]. }
  simpl serve.
  destruct (updateFirst filter (applyUpdate update) (users w1)) as [[doc us]|] eqn:Hup.
  - destruct (updateFirst_split _ _ _ _ _ Hup) as (l1 & before & l2 & Hl & -> & -> & Hm & Hl1).
    cbv beta iota. simpl. left.
    exists l1, before, l2. rewrite <- Hw1. by repeat split.
  - cbv beta iota.
    destruct (catchClause_outcome (ErrorInstance failed)
                (record (User_findOneAndUpdate filter update) w1)) as (Hu & _ & _ & Ho).
    destruct (run (catchClause (ErrorInstance failed)) _) as [o w2]. right.
    simpl in *. split; [congruence|done].
Qed.

(** X15.  With whole-number balances and amounts that are safe integers,
    a store call that raises taken to have had no effect, and whatever the
    store raises along the way: [updateCredits] either resolves with the
    record it has incremented, the first record with the given [_id]
    changed in place and every other record untouched, or changes nothing
    and does not resolve with a record.  The increment is applied once or
    not at all, and the caller can tell which.  The new balance is the
    double nearest to the sum, which is the sum itself when it is a safe
    integer. *)
Theorem updateCredits_all_or_nothing (userId : ObjectId) (creditFee : Z) (w : World) :
  isSafeInteger creditFee = true ->
  Forall (fun u => isSafeInteger (User.creditBalance u) = true) (users w) ->
  let '(outcome, w') := run (updateCredits userId creditFee) w in
  (exists l1 before l2,
      users w = l1 ++ before :: l2 /\
      User._id before = userId /\
      Forall (fun x => User._id x <> userId) l1 /\
      users w' = l1 ++ incCreditBalance creditFee before :: l2 /\
      outcome = Resolves (Json (incCreditBalance creditFee before)) /\
      User.creditBalance (incCreditBalance creditFee before)
        = roundToDouble (User.creditBalance before + creditFee) /\
      (isSafeInteger (User.creditBalance before + creditFee) = true ->
       User.creditBalance (incCreditBalance creditFee before)
         = (User.creditBalance before + creditFee)%Z)) \/
  (users w' = users w /\ forall u, outcome <> Resolves (Json u)).
Proof.
  intros _ _.
  pose proof (run_update_shape (ById userId) (Inc_creditBalance creditFee)
                "User credits update failed" w) as H.
  change (run (updateCredits userId creditFee) w) with
    (run (tryCatch
           (await connectToDatabase ;;
            updated <- await (User_findOneAndUpdate (ById userId) (Inc_creditBalance creditFee)) ;;
            match updated with
            | None => Throw (ErrorInstance "User credits update failed")
            | Some updated => Return (JSON_roundtrip updated)
            end)
           catchClause) w).
  destruct (run _ w) as [outcome w'].
  destruct H as [(l1 & before & l2 & Hu & Hm & Hl1 & Hu' & Ho)|H]; [left|by right].
  exists l1, before, l2. repeat split; try done.
  - simpl in Hm. by apply bool_decide_eq_true in Hm.
  - eapply Forall_impl; [exact Hl1|]. simpl. intros x Hx Heq.
    by rewrite bool_decide_eq_true_2 in Hx.
  - intros Hsafe. simpl. by apply addDoubles_safe.
Qed.

(** X16.  For a payload of [UpdateUserParams] fields, a store call that
    raises taken to have had no effect, and whatever the store raises along
    the way: [updateUser] either resolves with the updated record, having
    set the fields the payload names in the first record with the given
    [clerkId] (no record before it has that [clerkId]), in place and with
    every other record untouched, or changes nothing in the collection and
    does not resolve with a record. *)
Theorem updateUser_touches_one (clerkId : string) (user : UpdateUserParams.t) (w : World) :
  let '(outcome, w') := run (updateUser clerkId user) w in
  (exists l1 before l2,
      users w = l1 ++ before :: l2 /\
      User.clerkId before = clerkId /\
      Forall (fun x => User.clerkId x <> clerkId) l1 /\
      users w' = l1 ++ setFields user before :: l2 /\
      outcome = Resolves (Json (setFields user before))) \/
  (users w' = users w /\ forall u, outcome <> Resolves (Json u)).
Proof.
  pose proof (run_update_shape (ByClerkId clerkId) (Fields user) "User update failed" w) as H.
  change (run (updateUser clerkId user) w) with
    (run (tryCatch
           (await connectToDatabase ;;
            updated <- await (User_findOneAndUpdate (ByClerkId clerkId) (Fields user)) ;;
            match updated with
            | None => Throw (ErrorInstance "User update failed")
            | Some updated => Return (JSON_roundtrip updated)
            end)
           catchClause) w).
  destruct (run _ w) as [outcome w'].
  destruct H as [(l1 & before & l2 & Hu & Hm & Hl1 & Hu' & Ho)|H]; [left|by right].
  simpl in Hm. apply bool_decide_eq_true in Hm.
  exists l1, before, l2. repeat split; try done.
  eapply Forall_impl; [exact Hl1|]. simpl. intros x Hx Heq.
  by rewrite bool_decide_eq_true_2 in Hx.
Qed.

(** *** Adjustments one after the other *)

Lemma users_after_updateCredits (userId : ObjectId) (creditFee : Z) (w : World) :
  quiet w ->
  users (snd (run (updateCredits userId creditFee) w)) =
  match updateFirst (ById userId) (incCreditBalance creditFee) (users w) with
  | Some (_, us) => us
  | None => users w
  end.
Proof.
  intros Hq. rewrite run_updateCredits_quiet by done. cbv zeta.
  destruct (updateFirst _ _ (users w)) as [[doc us]|]; simpl; [done|].
  by destruct (afterConnect_data w) as (-> & _).
Qed.

Lemma allSafe_Forall (ns : list Z) :
  allSafe ns = true -> Forall (fun n => isSafeInteger n = true) ns.
Proof. intros H. apply Forall_forall. intros n Hn. eapply forallb_forall; [exact H|].
       by apply list_elem_of_In. Qed.

Lemma incCreditBalance_add (a b : Z) (u : User.t) :
  isSafeInteger (User.creditBalance u + a) = true ->
  isSafeInteger (User.creditBalance u + a + b) = true ->
  incCreditBalance b (incCreditBalance a u) = incCreditBalance (a + b) u.
Proof.
  intros Ha Hab. unfold incCreditBalance. simpl. f_equal.
  rewrite (addDoubles_safe _ a) by done.
  rewrite !addDoubles_safe; [lia| |done].
  by replace (User.creditBalance u + (a + b))%Z with (User.creditBalance u + a + b)%Z by lia.
Qed.

Lemma incCreditBalance_back (a : Z) (u : User.t) :
  isSafeInteger (User.creditBalance u) = true ->
  isSafeInteger (User.creditBalance u + a) = true ->
  incCreditBalance (- a) (incCreditBalance a u) = u.
Proof.
  intros Hu Ha. destruct u. unfold incCreditBalance. simpl in *. f_equal.
  rewrite (addDoubles_safe _ a) by done.
  rewrite addDoubles_safe; [lia|].
  by replace (creditBalance + a + - a)%Z with creditBalance by lia.
Qed.

(** X17.  Two [updateCredits] on the same user, one after the other, leave
    the collection as a single [updateCredits] with the sum of the two
    amounts does, when the user's balance, the two amounts, their sum and
    the balance after the first and after both are safe integers. *)
Theorem updateCredits_adds_up (userId : ObjectId) (delta1 delta2 : Z) (w : World) :
  quiet w ->
  (forall before, findFirst (ById userId) (users w) = Some before ->
     allSafe [User.creditBalance before; delta1; delta2; delta1 + delta2;
              User.creditBalance before + delta1;
              User.creditBalance before + delta1 + delta2]%Z = true) ->
  users (snd (run (updateCredits userId delta2)
                (snd (run (updateCredits userId delta1) w)))) =
  users (snd (run (updateCredits userId (delta1 + delta2)) w)).
Proof.
  intros Hq Hsafe.
  pose proof (quiet_run (updateCredits userId delta1) w Hq) as Hq1.
  rewrite (users_after_updateCredits userId delta2) by done.
  rewrite !users_after_updateCredits by done.
  destruct (findFirst (ById userId) (users w)) as [before|] eqn:Hfind.
  - specialize (Hsafe before eq_refl). simpl in Hsafe. rewrite !andb_true_iff in Hsafe.
    destruct Hsafe as (_ & _ & _ & _ & H1 & H12 & _).
    destruct (findFirst_split _ _ _ Hfind) as (l1 & l2 & -> & Hl1 & Hm).
    rewrite !(updateFirst_app _ _ _ _ _ Hl1 Hm).
    rewrite updateFirst_app; [|done|by rewrite matches_incCreditBalance].
    by rewrite incCreditBalance_add.
  - rewrite (updateFirst_None _ (incCreditBalance delta1) _ Hfind).
    rewrite (updateFirst_None _ (incCreditBalance delta2) _ Hfind).
    by rewrite (updateFirst_None _ (incCreditBalance (delta1 + delta2)) _ Hfind).
Qed.

(** X18.  A charge followed by a refund of the same amount gives the
    collection back as it was: [updateCredits(id, -fee)] undoes
    [updateCredits(id, fee)], when the user's balance, the fee and the
    balance after the charge are safe integers. *)
Theorem updateCredits_refund (userId : ObjectId) (creditFee : Z) (w : World) :
  quiet w ->
  (forall before, findFirst (ById userId) (users w) = Some before ->
     allSafe [User.creditBalance before; creditFee;
              User.creditBalance before + creditFee]%Z = true) ->
  users (snd (run (updateCredits userId (- creditFee))
                (snd (run (updateCredits userId creditFee) w)))) = users w.
Proof.
  intros Hq Hsafe.
  pose proof (quiet_run (updateCredits userId creditFee) w Hq) as Hq1.
  rewrite (users_after_updateCredits userId (- creditFee)) by done.
  rewrite users_after_updateCredits by done.
  destruct (findFirst (ById userId) (users w)) as [before|] eqn:Hfind.
  - specialize (Hsafe before eq_refl). simpl in Hsafe. rewrite !andb_true_iff in Hsafe.
    destruct Hsafe as (Hb & _ & Hsum & _).
    destruct (findFirst_split _ _ _ Hfind) as (l1 & l2 & -> & Hl1 & Hm).
    rewrite (updateFirst_app _ _ _ _ _ Hl1 Hm).
    rewrite updateFirst_app; [|done|by rewrite matches_incCreditBalance].
    by rewrite incCreditBalance_back.
  - rewrite (updateFirst_None _ (incCreditBalance creditFee) _ Hfind).
    by rewrite (updateFirst_None _ (incCreditBalance (- creditFee)) _ Hfind).
Qed.

(** *** What the actions never do *)

(** X19.  When the connection cannot be had, no action goes any further:
    the only store call made is [connectToDatabase], no record is read or
    written and [revalidatePath] is not called. *)
Theorem failed_connection_stops_action (op : Operation) (t : Thrown)
      (rest : list (option Thrown)) (w : World) :
  failures w = Some t :: rest ->
  let w' := snd (run (action op) w) in
  trace w' = trace w ++ [called connectToDatabase] /\
  users w' = users w /\
  revalidated w' = revalidated w.
Proof.
  intros Hf. cbv zeta.
  destruct (action_shape op) as (body & Hbody & _).
  destruct (action_connects_first op) as (k & h & Hk).
  assert (Hrun : run (action op) w = run (h t) (record connectToDatabase w)).
  { rewrite Hk. simpl. by rewrite (perform_raises _ _ _ _ Hf). }
  rewrite Hrun. clear Hrun.
  assert (Hh : h t = catchClause t).
  { destruct op; simpl in Hk; injection Hk as _ Hh;
      apply (f_equal (fun f => f t)) in Hh; by rewrite <- Hh. }
  rewrite Hh.
  by destruct (catchClause_outcome t (record connectToDatabase w)) as (-> & -> & -> & _).
Qed.

Lemma users_perform_reads {R : Type} (call : StoreCall R) (w : World) :
  readsOnly R call ->
  users (snd (perform call w)) = users w /\ nextId (snd (perform call w)) = nextId w.
Proof.
  intros Hcall.
  destruct (perform_outcome call w) as [[t ->]| ->]; [done|].
  revert Hcall. destruct call; simpl; intros Hcall; try (by destruct Hcall).
  unfold connect. simpl. by destruct (connected w).
Qed.

(** X20.  [getUserById] only reads: whatever the store raises along the way,
    the collection and the next primary key are the same after it as before. *)
Theorem getUserById_reads_only (userId : string) (w : World) :
  users (snd (run (getUserById userId) w)) = users w /\
  nextId (snd (run (getUserById userId) w)) = nextId w.
Proof.
  apply (run_calls_invariant readsOnly
           (fun w' => users w' = users w /\ nextId w' = nextId w)).
  - intros R call w1 Hcall [Hu Hn].
    destruct (users_perform_reads call w1 Hcall) as [-> ->]. by split.
  - done.
  - done.
  - apply callsOnly_tryCatch; [|apply callsOnly_catchClause]. calls_only.
  - done.
Qed.

Lemma revalidated_perform {R : Type} (call : StoreCall R) (w : World) :
  revalidated (snd (perform call w)) = revalidated w.
Proof.
  destruct (perform_outcome call w) as [[t ->]| ->]; [done|].
  destruct call; simpl; unfold connect, insert; repeat case_match; done.
Qed.

Lemma neverRevalidates_run {A : Type} (p : Prog A) :
  neverRevalidates p -> forall w, revalidated (snd (run p w)) = revalidated w.
Proof.
  induction p as [a|t|R call k IHk h IHh|path k IH|line k IH]; simpl; intros Hp w; try done.
  - destruct Hp as [Hk Hh]. pose proof (revalidated_perform call w) as Hstep.
    destruct (perform call w) as [[t|r] w']; simpl in Hstep.
    + by rewrite IHh.
    + by rewrite IHk.
  - by rewrite IH.
Qed.

(** X21.  [deleteUser] is the only action that calls [revalidatePath]:
    after any other action, whatever the store raises along the way, no
    path has been revalidated. *)
Theorem only_deleteUser_revalidates (op : Operation) (w : World) :
  (forall clerkId, op <> DeleteUser clerkId) ->
  revalidated (snd (run (action op) w)) = revalidated w.
Proof.
  intros Hop. apply neverRevalidates_run.
  assert (Hcatch : forall t, neverRevalidates (catchClause t)).
  { by intros [m|[| | | |s| |]]. }
  destruct op as [user|userId|clerkId user|clerkId|userId fee]; simpl.
  - repeat split; try done. all: intros; simpl; repeat split; intros; try apply Hcatch; done.
  - repeat split; try done. all: intros; simpl; repeat split; intros;
      try apply Hcatch; try done; by case_match; simpl; try apply Hcatch.
  - repeat split; try done. all: intros; simpl; repeat split; intros;
      try apply Hcatch; try done; by case_match; simpl; try apply Hcatch.
  - by destruct (Hop clerkId).
  - repeat split; try done. all: intros; simpl; repeat split; intros;
      try apply Hcatch; try done; by case_match; simpl; try apply Hcatch.
Qed.

(** X22.  [deleteUser] can reject after it has deleted: if the delete by
    primary key raises an [Error] once the delete by [clerkId] has gone
    through, the action rejects with that error, the record is gone all the
    same, and [revalidatePath] has not been called. *)
Theorem deleteUser_rejects_after_deleting (clerkId message : string) (w : World)
      (found : User.t) (rest : list (option Thrown)) :
  failures w = None :: None :: Some (ErrorInstance message) :: rest ->
  findFirst (ByClerkId clerkId) (users w) = Some found ->
  let '(outcome, w') := run (deleteUser clerkId) w in
  outcome = Rejects (ErrorInstance ("Error: " +:+ message)) /\
  (exists l1 l2, users w = l1 ++ found :: l2 /\ users w' = l1 ++ l2) /\
  revalidated w' = revalidated w.
Proof.
  intros Hf Hfind.
  destruct (findFirst_split _ _ _ Hfind) as (l1 & l2 & Hsplit & Hl1 & Hm).
  unfold deleteUser. rewrite run_tryCatch, run_bind, run_await.
  unfold perform at 1. rewrite Hf. simpl serve. cbv beta iota.
  rewrite run_bind, run_await.
  set (w1 := connect (record connectToDatabase w)).
  assert (Hw1 : users w1 = users w /\ failures w1 = None :: Some (ErrorInstance message) :: rest
                /\ revalidated w1 = revalidated w).
  { subst w1. unfold connect. destruct (connected _); simpl; by rewrite Hf. }
  destruct Hw1 as (Hu1 & Hf1 & Hr1).
  unfold perform at 1. rewrite Hf1. simpl serve. rewrite Hu1, Hsplit.
  rewrite (removeFirst_app _ _ _ _ Hl1 Hm). cbv beta iota.
  rewrite run_bind, run_await.
  set (w2 := setUsers (record (User_findOneAndDelete clerkId) w1) (l1 ++ l2) (nextId _)).
  assert (Hf2 : failures w2 = Some (ErrorInstance message) :: rest).
  { subst w2. simpl. by rewrite Hf1. }
  rewrite (perform_raises _ _ _ _ Hf2). cbv beta iota. simpl run.
  cbv beta iota. split; [done|]. split; [by exists l1, l2|].
  simpl. exact Hr1.
Qed.

(** *** The statements at work on the sample store *)

Lemma store_error_logged_and_rethrown_witness :
  let w := initial [None; Some (ErrorInstance "ETIMEDOUT")] in
  Forall (fun f : option Thrown => f = None) [None] /\
  failures w = [None] ++ Some (ErrorInstance "ETIMEDOUT")
                 :: failures (snd (run (action (GetUserById "user_2b")) w)) /\
  fst (run (action (GetUserById "user_2b")) w) = Rejects (ErrorInstance "Error: ETIMEDOUT") /\
  console (snd (run (action (GetUserById "user_2b")) w)) = ["ETIMEDOUT"].
Proof.
  cbv zeta.
  assert (H1 : Forall (fun f : option Thrown => f = None) [None]) by (by constructor).
  split; [exact H1|]. split; [reflexivity|].
  exact (store_error_logged_and_rethrown (GetUserById "user_2b") "ETIMEDOUT" [None]
           (initial [None; Some (ErrorInstance "ETIMEDOUT")]) H1 eq_refl).
Defined.

Lemma getUserById_not_found_witness :
  quiet sampleWorld /\
  findFirst (ByClerkId "user_9z") (users sampleWorld) = None /\
  fst (run (getUserById "user_9z") sampleWorld) = Rejects (ErrorInstance "Error: User not found").
Proof.
  split; [exact quiet_sampleWorld|]. split; [reflexivity|].
  pose proof (getUserById_not_found "user_9z" sampleWorld quiet_sampleWorld eq_refl) as H.
  destruct (run (getUserById "user_9z") sampleWorld) as [outcome w'].
  exact (proj1 H).
Defined.

Lemma updateUser_not_found_witness :
  quiet sampleWorld /\
  findFirst (ByClerkId "user_9z") (users sampleWorld) = None /\
  users (snd (run (updateUser "user_9z" sampleRename) sampleWorld)) = users sampleWorld.
Proof.
  split; [exact quiet_sampleWorld|]. split; [reflexivity|].
  pose proof (updateUser_not_found "user_9z" sampleRename sampleWorld
                quiet_sampleWorld eq_refl) as H.
  destruct (run (updateUser "user_9z" sampleRename) sampleWorld) as [outcome w'].
  exact (proj1 (proj2 H)).
Defined.

Lemma deleteUser_of_nobody_witness :
  quiet sampleWorld /\
  findFirst (ByClerkId "user_9z") (users sampleWorld) = None /\
  fst (run (deleteUser "user_9z") sampleWorld) = Rejects (ErrorInstance "Error: User not found").
Proof.
  split; [exact quiet_sampleWorld|]. split; [reflexivity|].
  pose proof (deleteUser_of_nobody "user_9z" sampleWorld quiet_sampleWorld eq_refl) as H.
  destruct (run (deleteUser "user_9z") sampleWorld) as [outcome w'].
  exact (proj1 H).
Defined.

Lemma deleteUser_removes_one_witness :
  quiet sampleWorld /\ wellFormed sampleWorld /\
  findFirst (ByClerkId "user_2b") (users sampleWorld) = Some (newDocument 0%N sampleUser) /\
  revalidated (snd (run (deleteUser "user_2b") sampleWorld)) = ["/"].
Proof.
  split; [exact quiet_sampleWorld|]. split; [exact wellFormed_sampleWorld|].
  split; [reflexivity|].
  destruct (deleteUser_removes_one "user_2b" sampleWorld (newDocument 0%N sampleUser)
              quiet_sampleWorld wellFormed_sampleWorld eq_refl) as (l1 & l2 & _ & _ & Hrev).
  exact Hrev.
Defined.

Lemma deleteUser_then_lookup_witness :
  quiet sampleWorld /\ wellFormed sampleWorld /\
  findFirst (ByClerkId "user_2b") (users sampleWorld) = Some (newDocument 0%N sampleUser) /\
  fst (run (getUserById "user_2b") (snd (run (deleteUser "user_2b") sampleWorld)))
  = Rejects (ErrorInstance "Error: User not found").
Proof.
  split; [exact quiet_sampleWorld|]. split; [exact wellFormed_sampleWorld|].
  split; [reflexivity|].
  exact (proj1 (deleteUser_then_lookup "user_2b" sampleRename sampleWorld
                  (newDocument 0%N sampleUser)
                  quiet_sampleWorld wellFormed_sampleWorld eq_refl)).
Defined.

Lemma updateCredits_all_or_nothing_witness :
  isSafeInteger 5 = true /\
  Forall (fun u => isSafeInteger (User.creditBalance u) = true) (users sampleWorld) /\
  users (snd (run (updateCredits 0%N 5%Z) sampleWorld))
  = [incCreditBalance 5 (newDocument 0%N sampleUser)] /\
  balanceOf 0%N (snd (run (updateCredits 0%N 5%Z) sampleWorld)) = Some 15%Z.
Proof.
  assert (H1 : isSafeInteger 5 = true) by reflexivity.
  assert (H2 : Forall (fun u => isSafeInteger (User.creditBalance u) = true)
                 (users sampleWorld)).
  { repeat constructor. }
  split; [exact H1|]. split; [exact H2|].
  pose proof (updateCredits_all_or_nothing 0%N 5%Z sampleWorld H1 H2) as H.
  destruct (run (updateCredits 0%N 5%Z) sampleWorld) as [outcome w'] eqn:Hrun.
  destruct H as [(l1 & before & l2 & Hu & _ & _ & Hu' & _)|[_ Ho]].
  - change (users sampleWorld) with [newDocument 0%N sampleUser] in Hu.
    destruct l1 as [|x l1]; simpl in Hu.
    + injection Hu as <- <-. simpl. split; [exact Hu'|].
      unfold balanceOf. rewrite Hu'. reflexivity.
    + injection Hu as _ Hnil. by destruct l1.
  - vm_compute in Hrun. injection Hrun as <- _. exfalso. by eapply Ho.
Defined.

Lemma updateCredits_adds_up_witness :
  quiet sampleWorld /\
  (forall before, findFirst (ById 0%N) (users sampleWorld) = Some before ->
     allSafe [User.creditBalance before; -3; -100; -3 + -100;
              User.creditBalance before + -3;
              User.creditBalance before + -3 + -100]%Z = true) /\
  users (snd (run (updateCredits 0%N (-100)%Z)
                (snd (run (updateCredits 0%N (-3)%Z) sampleWorld)))) =
  users (snd (run (updateCredits 0%N (-3 + -100)%Z) sampleWorld)).
Proof.
  assert (Hsafe : forall before, findFirst (ById 0%N) (users sampleWorld) = Some before ->
            allSafe [User.creditBalance before; -3; -100; -3 + -100;
                     User.creditBalance before + -3;
                     User.creditBalance before + -3 + -100]%Z = true).
  { intros before Hfind. vm_compute in Hfind. injection Hfind as <-. reflexivity. }
  split; [exact quiet_sampleWorld|]. split; [exact Hsafe|].
  exact (updateCredits_adds_up 0%N (-3)%Z (-100)%Z sampleWorld quiet_sampleWorld Hsafe).
Defined.

Lemma updateCredits_refund_witness :
  quiet sampleWorld /\
  (forall before, findFirst (ById 0%N) (users sampleWorld) = Some before ->
     allSafe [User.creditBalance before; 4; User.creditBalance before + 4]%Z = true) /\
  users (snd (run (updateCredits 0%N (- 4)%Z)
                (snd (run (updateCredits 0%N 4%Z) sampleWorld)))) = users sampleWorld.
Proof.
  assert (Hsafe : forall before, findFirst (ById 0%N) (users sampleWorld) = Some before ->
            allSafe [User.creditBalance before; 4; User.creditBalance before + 4]%Z = true).
  { intros before Hfind. vm_compute in Hfind. injection Hfind as <-. reflexivity. }
  split; [exact quiet_sampleWorld|]. split; [exact Hsafe|].
  exact (updateCredits_refund 0%N 4%Z sampleWorld quiet_sampleWorld Hsafe).
Defined.

Lemma failed_connection_stops_action_witness :
  let w := initial [Some (ErrorInstance "ECONNREFUSED")] in
  failures w = [Some (ErrorInstance "ECONNREFUSED")] /\
  trace (snd (run (action (DeleteUser "user_2b")) w)) = [called connectToDatabase] /\
  users (snd (run (action (DeleteUser "user_2b")) w)) = [] /\
  revalidated (snd (run (action (DeleteUser "user_2b")) w)) = [].
Proof.
  cbv zeta. split; [reflexivity|].
  exact (failed_connection_stops_action (DeleteUser "user_2b") (ErrorInstance "ECONNREFUSED")
           [] (initial [Some (ErrorInstance "ECONNREFUSED")]) eq_refl).
Defined.

Lemma only_deleteUser_revalidates_witness :
  (forall clerkId, CreateUser sampleUser <> DeleteUser clerkId) /\
  revalidated (snd (run (action (CreateUser sampleUser)) sampleWorld)) = revalidated sampleWorld.
Proof.
  assert (H : forall clerkId, CreateUser sampleUser <> DeleteUser clerkId)
    by (intros clerkId; discriminate).
  split; [exact H|].
  exact (only_deleteUser_revalidates (CreateUser sampleUser) sampleWorld H).
Defined.

Lemma deleteUser_rejects_after_deleting_witness :
  let w := mkWorld (users sampleWorld) 1%N true 1
             [None; None; Some (ErrorInstance "ETIMEDOUT")] [] [] [] in
  failures w = None :: None :: Some (ErrorInstance "ETIMEDOUT") :: [] /\
  findFirst (ByClerkId "user_2b") (users w) = Some (newDocument 0%N sampleUser) /\
  fst (run (deleteUser "user_2b") w) = Rejects (ErrorInstance "Error: ETIMEDOUT") /\
  users (snd (run (deleteUser "user_2b") w)) = [].
Proof.
  cbv zeta. split; [reflexivity|]. split; [reflexivity|].
  pose proof (deleteUser_rejects_after_deleting "user_2b" "ETIMEDOUT"
                (mkWorld (users sampleWorld) 1%N true 1
                   [None; None; Some (ErrorInstance "ETIMEDOUT")] [] [] [])
                (newDocument 0%N sampleUser) [] eq_refl eq_refl) as H.
  vm_compute in H. destruct H as (Hout & _ & _).
  split; [exact Hout|reflexivity].
Defined.

End LedgerMore.
